(** * The IDE file explorer: tree lookup, tab store, child ordering, search

    A shallow embedding of the file-explorer component (the zustand store
    [useFileStore], the [IDE] component with [handleCloseFile] and
    [findFileContent], the [FileTree] component with [handleFileOpen] and its
    child ordering) together with the properties stated about it.

    Conventions.
    - A JavaScript string is a Rocq [string].  Equality, concatenation,
      search for a substring and slicing do not depend on what a code unit
      is; [toLowerCase] is given on the letters A to Z.
    - A JavaScript number that counts or indexes is a [Z].
    - A value of type [string | null] that can also be [undefined] at run time
      is a [Selection].
    - The store is passed explicitly.  A handler defined inside a component
      closes over the values the component read from the store when it was
      rendered; those captured values are explicit arguments of the handler. *)

From stdpp Require Import base list strings gmap sets sorting.
From Stdlib Require Import ZArith Lia Ascii.
From Stdlib Require OrderedTypeEx.

Set Warnings "-register-all,-clear-no-such-hyp".

Local Open Scope Z_scope.

(** ** JavaScript strings *)

Module JsString.

(** [s.slice(n)] for [0 <= n]: the string without its first [n] code units. *)
Fixpoint drop (n : nat) (s : string) : string :=
  match n, s with
  | O, _ => s
  | S _, EmptyString => EmptyString
  | S n', String _ s' => drop n' s'
  end.

(** [s.replace(pat, rep)] with a string pattern: the first occurrence of
    [pat] in [s], scanning from the left, is replaced by [rep]; [s] is
    returned unchanged when [pat] does not occur.  (The source only passes
    the empty string as [rep], which holds no replacement pattern.) *)
Fixpoint replace (s pat rep : string) : string :=
  if String.prefix pat s then rep +:+ drop (String.length pat) s
  else match s with
       | EmptyString => EmptyString
       | String c s' => String c (replace s' pat rep)
       end.

(** [s.includes(q)]: [q] occurs somewhere in [s]. *)
Fixpoint includes (s q : string) : bool :=
  if String.prefix q s then true
  else match s with
       | EmptyString => false
       | String _ s' => includes s' q
       end.

(** [s.lastIndexOf(".")], [-1] when there is no dot. *)
Fixpoint lastIndexOf_dot_from (i : Z) (s : string) (found : Z) : Z :=
  match s with
  | EmptyString => found
  | String c s' =>
      lastIndexOf_dot_from (i + 1) s' (if Ascii.eqb c "."%char then i else found)
  end.

Definition lastIndexOf_dot (s : string) : Z := lastIndexOf_dot_from 0 s (-1).

(** [s.slice(i)] for any integer [i]: a negative [i] counts from the end. *)
Definition slice (s : string) (i : Z) : string :=
  let len := Z.of_nat (String.length s) in
  let start := if i <? 0 then Z.max (len + i) 0 else Z.min i len in
  drop (Z.to_nat start) s.

(** [c.toLowerCase()] on the letters A to Z; other code units of the
    7-bit range are left as they are. *)
Definition lower_ascii (c : ascii) : ascii :=
  let n := nat_of_ascii c in
  if ((65 <=? n) && (n <=? 90))%nat then ascii_of_nat (n + 32) else c.

Fixpoint toLowerCase (s : string) : string :=
  match s with
  | EmptyString => EmptyString
  | String c s' => String (lower_ascii c) (toLowerCase s')
  end.

(** [s.split("\n")]: the lines of [s]; a string with [k] line feeds has
    [k + 1] lines, the empty string has the one line [""]. *)
Fixpoint split_lines_acc (cur : string) (s : string) : list string :=
  match s with
  | EmptyString => [String.rev cur]
  | String c s' =>
      if Ascii.eqb c "010"%char then String.rev cur :: split_lines_acc EmptyString s'
      else split_lines_acc (String c cur) s'
  end.

Definition split_lines (s : string) : list string := split_lines_acc EmptyString s.

(** The code units that [\s] matches and [trim] removes, among those below
    256: tab, line feed, vertical tab, form feed, carriage return, space
    and no-break space. *)
Definition is_space (c : ascii) : bool :=
  let n := nat_of_ascii c in
  ((n =? 9) || (n =? 10) || (n =? 11) || (n =? 12) || (n =? 13) || (n =? 32)
   || (n =? 160))%nat.

(** [s.trimStart()] and [s.trimEnd()]. *)
Fixpoint trimStart (s : string) : string :=
  match s with
  | EmptyString => EmptyString
  | String c s' => if is_space c then trimStart s' else s
  end.

Fixpoint trimEnd (s : string) : string :=
  match s with
  | EmptyString => EmptyString
  | String c s' =>
      match trimEnd s' with
      | EmptyString => if is_space c then EmptyString else String c EmptyString
      | t => String c t
      end
  end.

(** [s.trim()]. *)
Definition trim (s : string) : string := trimEnd (trimStart s).

(** [s.split(/\s+/)]: the pieces of [s] between its runs of space.  A run
    at the start or at the end of [s] has the empty piece on its outer
    side, and the empty string has the one piece [""].  [in_run] tells that
    the code unit before was a space; [cur] holds the piece being read,
    last code unit first. *)
Fixpoint split_spaces_go (in_run : bool) (cur : string) (s : string) : list string :=
  match s with
  | EmptyString => [String.rev cur]
  | String c s' =>
      if is_space c then
        if in_run then split_spaces_go true EmptyString s'
        else String.rev cur :: split_spaces_go true EmptyString s'
      else split_spaces_go false (String c cur) s'
  end.

Definition split_spaces (s : string) : list string :=
  split_spaces_go false EmptyString s.

End JsString.

(** ** The file tree *)

Inductive NodeType := file | directory.

Global Instance NodeType_eq_dec : EqDecision NodeType.
Proof. solve_decision. Defined.

(** [t === u] on the two literals of a node's [type]. *)
Definition type_is (t u : NodeType) : bool :=
  match t, u with
  | file, file | directory, directory => true
  | _, _ => false
  end.

(** [interface FileExplorer]; an optional field that is absent is [None]. *)
Inductive FileExplorer := mkFileExplorer {
  name : string;
  type : NodeType;
  children : option (list FileExplorer);
  content : option string;
  language : option string
}.

(** What [findFileContent] returns when it finds a node. *)
Record FileContent := mkFileContent {
  fc_content : option string;
  fc_language : option string
}.

Global Instance FileContent_eq_dec : EqDecision FileContent.
Proof. solve_decision. Defined.

(** [findFileContent(node, targetPath)]: [None] is the source's [null].
    The loop over [node.children] returns the first result that is not
    [null]; every child is searched with the same stripped path. *)
Fixpoint findFileContent (node : FileExplorer) (targetPath : string)
  : option FileContent :=
  let nodePath := "/" +:+ name node in
  if String.eqb nodePath targetPath then
    Some (mkFileContent (content node) (language node))
  else
    match children node with
    | Some cs =>
        (fix loop (cs : list FileExplorer) : option FileContent :=
           match cs with
           | [] => None
           | child :: rest =>
               match findFileContent child (JsString.replace targetPath nodePath "") with
               | Some result => Some result
               | None => loop rest
               end
           end) cs
    | None => None
    end.

(** The first result of [f] over the elements of an array that is not
    [null]: the loop of [findFileContent]. *)
Fixpoint first_result {A B} (f : A → option B) (l : list A) : option B :=
  match l with
  | [] => None
  | x :: rest =>
      match f x with
      | Some r => Some r
      | None => first_result f rest
      end
  end.

(** Nodes as the examples build them. *)
Definition fileNode (n : string) (text : string) : FileExplorer :=
  mkFileExplorer n file None (Some text) None.

Definition dirNode (n : string) (cs : list FileExplorer) : FileExplorer :=
  mkFileExplorer n directory (Some cs) None None.

(** ** The store [useFileStore] *)

(** A run-time value of the store's [selectedPath]: declared as
    [string | null], it also receives [undefined] from an array read that is
    out of range. *)
Inductive Selection := SelNull | SelUndefined | SelPath (p : string).

Global Instance Selection_eq_dec : EqDecision Selection.
Proof. solve_decision. Defined.

(** No path is selected: the value is [null] or [undefined]. *)
Definition no_selection (s : Selection) : bool :=
  match s with
  | SelPath _ => false
  | _ => true
  end.

(** [selectedPath === path] for a string [path]. *)
Definition selection_is (s : Selection) (path : string) : bool :=
  match s with
  | SelPath p => String.eqb p path
  | _ => false
  end.

Record FileStoreState := mkFileStoreState {
  expandedPaths : gset string;
  selectedPath : Selection;
  openedFiles : list string
}.

(** The state the store is created with. *)
Definition initialState : FileStoreState :=
  {| expandedPaths := ∅; selectedPath := SelNull; openedFiles := [] |}.

(** [toggleExpanded]: the new set is a copy of the old one in which [path]
    is deleted when it was a member and added when it was not. *)
Definition toggleExpanded (path : string) (state : FileStoreState) : FileStoreState :=
  let newExpanded := expandedPaths state in
  let newExpanded :=
    if bool_decide (path ∈ newExpanded) then newExpanded ∖ {[ path ]}
    else newExpanded ∪ {[ path ]} in
  {| expandedPaths := newExpanded;
     selectedPath := selectedPath state;
     openedFiles := openedFiles state |}.

(** [setSelectedPath]: [set({ selectedPath: path })]. *)
Definition setSelectedPath (path : Selection) (state : FileStoreState) : FileStoreState :=
  {| expandedPaths := expandedPaths state;
     selectedPath := path;
     openedFiles := openedFiles state |}.

(** [setOpenedFiles]: [set({ openedFiles: files })]. *)
Definition setOpenedFiles (files : list string) (state : FileStoreState) : FileStoreState :=
  {| expandedPaths := expandedPaths state;
     selectedPath := selectedPath state;
     openedFiles := files |}.

(** ** Arrays of paths *)

(** [arr[i]] for an integer [i]: [None] is [undefined], which is what a
    negative or too large index reads. *)
Definition index (arr : list string) (i : Z) : option string :=
  if i <? 0 then None else arr !! Z.to_nat i.

Definition selection_of_read (r : option string) : Selection :=
  match r with
  | Some p => SelPath p
  | None => SelUndefined
  end.

(** [arr.includes(x)]. *)
Definition includes (arr : list string) (x : string) : bool :=
  bool_decide (x ∈ arr).

(** ** Handlers of the [IDE] component *)

(** [handleCloseFile(path)].  [selectedPath] and [openedFiles] are the values
    the component read from the store at its last render; [st] is the store
    the two setters act on, one after the other. *)
Definition handleCloseFile (selectedPath : Selection) (openedFiles : list string)
    (path : string) (st : FileStoreState) : FileStoreState :=
  let st := setOpenedFiles (filter (λ f, f ≠ path) openedFiles) st in
  if selection_is selectedPath path then
    setSelectedPath
      (selection_of_read (index openedFiles (Z.of_nat (length openedFiles) - 2))) st
  else st.

(** ** Handlers of the [FileTree] component *)

(** [isBinaryFile(fileName)]. *)
Definition binaryExtensions : list string :=
  [".ico"; ".woff"; ".woff2"; ".ttf"; ".eot"; ".png"; ".jpg"; ".jpeg"; ".gif"; ".webp"].

Definition isBinaryFile (fileName : string) : bool :=
  let extension :=
    JsString.toLowerCase (JsString.slice fileName (JsString.lastIndexOf_dot fileName)) in
  includes binaryExtensions extension.

(** [maxFilesOpen || 5]: a prop that is absent or [0] gives [5]. *)
Definition maxFilesOpen_or_5 (maxFilesOpen : option Z) : Z :=
  match maxFilesOpen with
  | Some 0 => 5
  | Some n => n
  | None => 5
  end.

(** [handleFileOpen(filePath)].  [openedFiles] is the array the component
    read from the store at its last render: both calls of [setOpenedFiles]
    compute their argument from it, and the second call replaces what the
    first one stored. *)
Definition handleFileOpen (maxFilesOpen : option Z) (openedFiles : list string)
    (filePath : string) (st : FileStoreState) : FileStoreState :=
  let st :=
    if negb (includes openedFiles filePath) then
      let st :=
        if Z.of_nat (length openedFiles) >=? maxFilesOpen_or_5 maxFilesOpen then
          let fileToClose := index openedFiles 0 in
          setOpenedFiles (filter (λ file, Some file ≠ fileToClose) openedFiles) st
        else st in
      setOpenedFiles (openedFiles ++ [filePath]) st
    else st in
  setSelectedPath (SelPath filePath) st.

(** A click on the row of [item], which [FileTree] renders under [path].
    A directory is rendered as an accordion, which carries no handler; the
    row of a file has [onClick={() => !isBinary && handleFileOpen(fullPath)}],
    where [fullPath] is [path + "/" + item.name]. *)
Definition FileTree_onClick (maxFilesOpen : option Z) (openedFiles : list string)
    (path : string) (item : FileExplorer) (st : FileStoreState) : FileStoreState :=
  let fullPath := path +:+ "/" +:+ name item in
  let isBinary := type_is (type item) file && isBinaryFile (name item) in
  if type_is (type item) directory then st
  else if negb isBinary then handleFileOpen maxFilesOpen openedFiles fullPath st
  else st.

(** ** User intents

    Both components subscribe to the whole store, so each is rendered again
    after every change of it: when an intent arrives, the values a handler
    closes over are those of the current store. *)

Definition openFile (maxFilesOpen : option Z) (path : string) (st : FileStoreState)
  : FileStoreState :=
  handleFileOpen maxFilesOpen (openedFiles st) path st.

Definition closeFile (path : string) (st : FileStoreState) : FileStoreState :=
  handleCloseFile (selectedPath st) (openedFiles st) path st.

(** [onSelectFile={setSelectedPath}]: the tab strip's select intent is the
    store's setter itself. *)
Definition selectFile (path : string) (st : FileStoreState) : FileStoreState :=
  setSelectedPath (SelPath path) st.

Inductive Intent :=
| OpenFile (path : string)
| CloseFile (path : string)
| SelectFile (path : string).

Definition step (maxFilesOpen : option Z) (i : Intent) (st : FileStoreState)
  : FileStoreState :=
  match i with
  | OpenFile p => openFile maxFilesOpen p st
  | CloseFile p => closeFile p st
  | SelectFile p => selectFile p st
  end.

(** The intents of [intents] applied from left to right. *)
Definition run (maxFilesOpen : option Z) (intents : list Intent) (st : FileStoreState)
  : FileStoreState :=
  foldl (λ st i, step maxFilesOpen i st) st intents.

(** ** Sorting an array *)

(** [Array.prototype.sort(cmp)].  The language fixes its result for a
    consistent comparator: the elements in ascending order, those that
    compare equal in their original order.  Insertion from the right
    computes that arrangement: an element moves past the sorted elements
    it is strictly greater than, and stops before the first one it is not. *)
Fixpoint sort_insert {A} (cmp : A → A → Z) (x : A) (sorted : list A) : list A :=
  match sorted with
  | [] => [x]
  | y :: rest => if 0 <? cmp x y then y :: sort_insert cmp x rest else x :: sorted
  end.

Definition sort {A} (cmp : A → A → Z) (arr : list A) : list A :=
  foldr (sort_insert cmp) [] arr.

(** ** The child rows of a directory

    [FileTree] calls [item.children?.sort(cmp).map(...)].  The comparison of
    names, [a.name.localeCompare(b.name)], is the host's collation: it is a
    parameter of this section. *)

Section ChildOrder.

Variable localeCompare : string → string → Z.

(** The comparator passed to [sort]. *)
Definition compareChildren (a b : FileExplorer) : Z :=
  if type_is (type a) directory && type_is (type b) file then -1
  else if type_is (type a) file && type_is (type b) directory then 1
  else localeCompare (name a) (name b).

(** The array [map] builds the child rows from, in order: [None] when the
    item is rendered as a file row or has no [children]. *)
Definition FileTree_rows (item : FileExplorer) : option (list FileExplorer) :=
  if type_is (type item) directory then sort compareChildren <$> children item
  else None.

(** The item after [FileTree] rendered it: [sort] orders the array it is
    called on in place, and that array is the item's own [children]. *)
Definition FileTree_render (item : FileExplorer) : FileExplorer :=
  if type_is (type item) directory then
    mkFileExplorer (name item) (type item)
      (sort compareChildren <$> children item) (content item) (language item)
  else item.

End ChildOrder.

(** [a] is not after [b] in the order of the comparator. *)
Definition not_after {A} (cmp : A → A → Z) (a b : A) : Prop := cmp a b ≤ 0.

(** A comparator to run the ordering with: strings compared code unit by
    code unit. *)
Definition codeUnitCompare (a b : string) : Z :=
  match String.compare a b with
  | Lt => -1
  | Eq => 0
  | Gt => 1
  end.

(** A collation that disregards the case of the letters A to Z. *)
Definition caselessCompare (a b : string) : Z :=
  codeUnitCompare (JsString.toLowerCase a) (JsString.toLowerCase b).

(** ** Search in the displayed buffer *)

(** The part of [CodeBlock] the source file holds: the search state at
    mount, where the cursor is [0] when initial results are given and [-1]
    otherwise. *)
Definition initialResultIndex (initialSearchResults : list Z) : Z :=
  if Z.of_nat (length initialSearchResults) >? 0 then 0 else -1.

Record SearchState := mkSearchState {
  query : string;
  matches : list Z;
  cursor : Z
}.

(** The code units below 256 that have a lower-case form other than
    themselves: the letters A to Z, À to Ö and Ø to Þ. *)
Definition is_upper_code (n : nat) : bool :=
  (((65 <=? n) && (n <=? 90)) || ((192 <=? n) && (n <=? 214))
   || ((216 <=? n) && (n <=? 222)))%nat.

(** A code unit with its case folded: an upper-case letter becomes its
    lower-case form, 32 code units above; every other code unit is kept. *)
Definition fold_case (c : ascii) : ascii :=
  let n := nat_of_ascii c in
  if is_upper_code n then ascii_of_nat (n + 32) else c.

Fixpoint fold_text (s : string) : string :=
  match s with
  | EmptyString => EmptyString
  | String c s' => String (fold_case c) (fold_text s')
  end.

(** A line holds the query when, the case of both folded, the query occurs
    in it. *)
Definition line_has (q line : string) : bool :=
  JsString.includes (fold_text line) (fold_text q).

(** The numbers, counted from [n], of the lines that hold [q]. *)
Fixpoint matching_lines (n : Z) (q : string) (lines : list string) : list Z :=
  match lines with
  | [] => []
  | line :: rest =>
      if line_has q line then n :: matching_lines (n + 1) q rest
      else matching_lines (n + 1) q rest
  end.

(** Modelled from the spec: the handler that recomputes the search state
    when the query changes is missing from the source file of [CodeBlock],
    which stops after the state declarations.  Following the specification,
    an empty query gives the empty state; otherwise the matches are the
    numbers, from 1, of the lines that hold the query without regard to
    case, and the cursor is [0] when there is a match and [-1] when there
    is none.  Lines are those of [code.split("\n")], as in
    [calculateCodeStats]; case is disregarded by folding both the line
    and the query, code unit by code unit. *)
Definition setQuery (buffer q : string) : SearchState :=
  if String.eqb q "" then mkSearchState q [] (-1)
  else
    let found := matching_lines 1 q (JsString.split_lines buffer) in
    mkSearchState q found (match found with [] => -1 | _ => 0 end).

(** What a case-insensitive occurrence is, said without the folding:
    [upper] and [lower] are the two forms of one letter. *)
Definition case_pair (upper lower : ascii) : Prop :=
  nat_of_ascii lower = (nat_of_ascii upper + 32)%nat
  ∧ ((65 ≤ nat_of_ascii upper ≤ 90)%nat
     ∨ (192 ≤ nat_of_ascii upper ≤ 214)%nat
     ∨ (216 ≤ nat_of_ascii upper ≤ 222)%nat).

(** Two code units are the same when case is disregarded. *)
Definition same_letter (a b : ascii) : Prop :=
  a = b ∨ case_pair a b ∨ case_pair b a.

(** Two texts of one length whose code units are the same, one by one,
    when case is disregarded. *)
Fixpoint same_text (s t : string) : Prop :=
  match s, t with
  | EmptyString, EmptyString => True
  | String a s', String b t' => same_letter a b ∧ same_text s' t'
  | _, _ => False
  end.

(** The query occurs in the line when case is disregarded: a part of the
    line is the same text as the query. *)
Definition occurs_ignoring_case (q line : string) : Prop :=
  ∃ pre part post, line = pre +:+ part +:+ post ∧ same_text part q.

(** The lines of a buffer, said without the splitting: texts without a
    line feed, at least one, that give the buffer when they are joined
    with line feeds. *)
Definition lines_of (buffer : string) (ls : list string) : Prop :=
  ls ≠ []
  ∧ Forall (λ line, ∀ pre post, line ≠ pre +:+ String "010" post) ls
  ∧ String.concat (String "010" "") ls = buffer.

(** ** Paths of the tree, as the specification means them *)

(** ["/" + n1 + "/" + n2 + ...] for the names [n1, n2, ...]. *)
Fixpoint path_of (names : list string) : string :=
  match names with
  | [] => ""
  | n :: rest => "/" +:+ n +:+ path_of rest
  end.

(** The node reached from [node] by going down through children named
    [names], in order. *)
Fixpoint descend (node : FileExplorer) (names : list string) : option FileExplorer :=
  match names with
  | [] => Some node
  | n :: rest =>
      match children node with
      | Some cs =>
          match List.find (λ c, String.eqb (name c) n) cs with
          | Some child => descend child rest
          | None => None
          end
      | None => None
      end
  end.

(** The node a root-inclusive sequence of names leads to. *)
Definition node_at (root : FileExplorer) (names : list string) : option FileExplorer :=
  match names with
  | [] => None
  | n :: rest => if String.eqb (name root) n then descend root rest else None
  end.

(** Sibling names are pairwise distinct, at every directory of the tree. *)
Fixpoint distinct_siblings (node : FileExplorer) : bool :=
  match children node with
  | Some cs =>
      bool_decide (NoDup (name <$> cs)) &&
      (fix all (cs : list FileExplorer) : bool :=
         match cs with
         | [] => true
         | c :: rest => distinct_siblings c && all rest
         end) cs
  | None => true
  end.

(** ** What the components compute from their props and the store *)

(** [fullPath] of a [FileTree] row: [path + "/" + item.name]. *)
Definition FileTree_fullPath (path : string) (item : FileExplorer) : string :=
  path +:+ "/" +:+ name item.

(** The [fullPath] of the row reached from a row with [fullPath = path]
    through children named [names]: every child row is given its parent's
    [fullPath] as [path]. *)
Fixpoint fullPath_along (path : string) (names : list string) : string :=
  match names with
  | [] => path
  | n :: rest => fullPath_along (path +:+ "/" +:+ n) rest
  end.

(** [selectedFile] of [IDE]: [selectedPath ? findFileContent(root,
    selectedPath) : null].  The empty string is falsy, as [null] and
    [undefined] are. *)
Definition selectedFile (root : FileExplorer) (selectedPath : Selection)
  : option FileContent :=
  match selectedPath with
  | SelPath p => if String.eqb p "" then None else findFileContent root p
  | _ => None
  end.

(** The [content] and [language] props [IDE] gives to [FileViewer]; [None]
    is the placeholder, rendered when [selectedFile?.content] is falsy:
    no file found, no [content], or the empty [content]. *)
Definition IDE_viewer (root : FileExplorer) (st : FileStoreState)
  : option (string * option string) :=
  match selectedFile root (selectedPath st) with
  | Some found =>
      match fc_content found with
      | Some text => if String.eqb text "" then None else Some (text, fc_language found)
      | None => None
      end
  | None => None
  end.

(** ** Statistics of a code block *)

Record CodeStats := mkCodeStats {
  lines : Z;
  chars : Z;
  words : Z
}.

(** [calculateCodeStats(code)].  [None] stands for an argument that is not
    a string, for which the function answers with zeros. *)
Definition calculateCodeStats (code : option string) : CodeStats :=
  match code with
  | None => mkCodeStats 0 0 0
  | Some code =>
      mkCodeStats
        (Z.of_nat (length (JsString.split_lines code)))
        (Z.of_nat (String.length code))
        (Z.of_nat (length (JsString.split_spaces (JsString.trim code))))
  end.

(** ** Vocabulary of the stated properties *)

(** The selection is absent or one of the open tabs. *)
Definition selection_open (st : FileStoreState) : bool :=
  match selectedPath st with
  | SelPath p => includes (openedFiles st) p
  | _ => true
  end.

(** An intent after which the selection can be told to be an open tab: a
    select names an open tab, and a close of the selected tab does not find
    that very tab at index [length - 2], where the fallback is read. *)
Definition admissible (i : Intent) (st : FileStoreState) : bool :=
  match i with
  | OpenFile _ => true
  | SelectFile p => includes (openedFiles st) p
  | CloseFile p =>
      if selection_is (selectedPath st) p
      then negb (bool_decide
                   (index (openedFiles st) (Z.of_nat (length (openedFiles st)) - 2) = Some p))
      else true
  end.

Fixpoint admissible_run (maxFilesOpen : option Z) (intents : list Intent)
    (st : FileStoreState) : bool :=
  match intents with
  | [] => true
  | i :: rest => admissible i st && admissible_run maxFilesOpen rest (step maxFilesOpen i st)
  end.

(** The nodes of a tree: the node itself and the nodes below it. *)
Fixpoint nodes (node : FileExplorer) : list FileExplorer :=
  node ::
  match children node with
  | Some cs =>
      (fix below (cs : list FileExplorer) : list FileExplorer :=
         match cs with
         | [] => []
         | c :: rest => nodes c ++ below rest
         end) cs
  | None => []
  end.

(** The number of line feeds in a string. *)
Fixpoint count_line_feeds (s : string) : Z :=
  match s with
  | EmptyString => 0
  | String c s' => (if Ascii.eqb c "010"%char then 1 else 0) + count_line_feeds s'
  end.

(** The number of code units of [s] that are not space and come first or
    after a space, when [after_space] tells what came before [s]: with
    [after_space = true], the number of maximal runs without space. *)
Fixpoint word_starts (after_space : bool) (s : string) : Z :=
  match s with
  | EmptyString => 0
  | String c s' =>
      (if after_space && negb (JsString.is_space c) then 1 else 0)
      + word_starts (JsString.is_space c) s'
  end.

(** Whether the code unit before the end of [s] is a space, when
    [after_space] tells what came before [s]. *)
Fixpoint space_at_end (after_space : bool) (s : string) : bool :=
  match s with
  | EmptyString => after_space
  | String c s' => space_at_end (JsString.is_space c) s'
  end.

(** ** Trees of the examples *)

(** A directory whose children are given with files and directories mixed
    and names out of order. *)
Definition mixedDir : FileExplorer :=
  dirNode "proj"
    [fileNode "b.ts" "b"; dirNode "src" []; fileNode "a.ts" "a"; dirNode "lib" []].

(** A project whose root directory lists [src], which holds an
    [index.ts], before its own [index.ts]. *)
Definition namesakeTree : FileExplorer :=
  dirNode "proj"
    [dirNode "src" [fileNode "index.ts" "inner"]; fileNode "index.ts" "outer"].

(** The tree of the specification's scenario. *)
Definition scenarioTree : FileExplorer :=
  dirNode "proj"
    [dirNode "src" [fileNode "a.ts" "x
y
foo
"; fileNode "b.ts" "foo
bar
"]].

(** * Properties *)

(** ** Reading arrays *)

Lemma includes_true (arr : list string) (x : string) :
  includes arr x = true ↔ x ∈ arr.
Proof. unfold includes. by rewrite bool_decide_eq_true. Qed.

Lemma includes_false (arr : list string) (x : string) :
  includes arr x = false ↔ x ∉ arr.
Proof. unfold includes. by rewrite bool_decide_eq_false. Qed.

Lemma index_nat (arr : list string) (n : nat) : index arr (Z.of_nat n) = arr !! n.
Proof.
  unfold index. destruct (Z.ltb_spec (Z.of_nat n) 0) as [?|_]; [lia|].
  by rewrite Nat2Z.id.
Qed.

Lemma index_negative (arr : list string) (i : Z) : i < 0 → index arr i = None.
Proof. intros Hi. unfold index. by destruct (Z.ltb_spec i 0); [|lia]. Qed.

Lemma selection_is_true (s : Selection) (p : string) :
  selection_is s p = true ↔ s = SelPath p.
Proof.
  destruct s as [| |q]; simpl; [done..|].
  rewrite String.eqb_eq. split; congruence.
Qed.

(** ** The tab list under [openFile], [closeFile] and [selectFile] *)

(** The array stored by [openFile] is the one the second [setOpenedFiles]
    builds: the rendered array with the path appended, whatever the first
    call stored and whatever [maxFilesOpen] is. *)
Lemma openFile_openedFiles (m : option Z) (p : string) (st : FileStoreState) :
  openedFiles (openFile m p st) =
  if includes (openedFiles st) p then openedFiles st else openedFiles st ++ [p].
Proof.
  unfold openFile, handleFileOpen.
  by destruct (includes (openedFiles st) p).
Qed.

Lemma openFile_selectedPath (m : option Z) (p : string) (st : FileStoreState) :
  selectedPath (openFile m p st) = SelPath p.
Proof. done. Qed.

Lemma closeFile_openedFiles (p : string) (st : FileStoreState) :
  openedFiles (closeFile p st) = filter (λ f, f ≠ p) (openedFiles st).
Proof.
  unfold closeFile, handleCloseFile.
  by destruct (selection_is _ _).
Qed.

Lemma run_snoc (m : option Z) (intents : list Intent) (i : Intent) (st : FileStoreState) :
  run m (intents ++ [i]) st = step m i (run m intents st).
Proof. unfold run. by rewrite foldl_app. Qed.

Lemma run_cons (m : option Z) (intents : list Intent) (i : Intent) (st : FileStoreState) :
  run m (i :: intents) st = run m intents (step m i st).
Proof. done. Qed.

(** No intent puts a path into the tab list twice. *)
Lemma step_NoDup (m : option Z) (i : Intent) (st : FileStoreState) :
  NoDup (openedFiles st) → NoDup (openedFiles (step m i st)).
Proof.
  intros Hnd. destruct i as [p|p|p]; unfold step.
  - rewrite openFile_openedFiles.
    destruct (includes (openedFiles st) p) eqn:Hin; [done|].
    apply includes_false in Hin.
    apply NoDup_app. repeat split; [done| |apply NoDup_singleton].
    intros x Hx ->%list_elem_of_singleton. done.
  - rewrite closeFile_openedFiles. by apply NoDup_filter.
  - done.
Qed.

Lemma run_NoDup (m : option Z) (intents : list Intent) (st : FileStoreState) :
  NoDup (openedFiles st) → NoDup (openedFiles (run m intents st)).
Proof.
  revert st. induction intents as [|i intents IH]; intros st Hnd; [done|].
  rewrite run_cons. by apply IH, step_NoDup.
Qed.

(** Opening paths that are pairwise distinct, from a store whose tab list
    holds none of them, appends all of them: no tab is ever dropped. *)
Lemma run_open_all (m : option Z) (paths : list string) (st : FileStoreState) :
  NoDup (openedFiles st ++ paths) →
  openedFiles (run m (OpenFile <$> paths) st) = openedFiles st ++ paths.
Proof.
  revert st. induction paths as [|p paths IH]; intros st Hnd.
  - by rewrite app_nil_r.
  - rewrite fmap_cons, run_cons. unfold step.
    assert (Hp : includes (openedFiles st) p = false).
    { apply includes_false. apply NoDup_app in Hnd as (_ & Hdis & _).
      intros Hin. apply (Hdis p Hin). by left. }
    assert (Hst : openedFiles (openFile m p st) = openedFiles st ++ [p]).
    { by rewrite openFile_openedFiles, Hp. }
    rewrite IH; rewrite Hst, <- app_assoc; done.
Qed.

(** ** Capacity and eviction *)

(** C2 (the tab list after any sequence of opens has at most [maxFilesOpen]
    entries and no duplicates), at the specification's own scenario: with
    [maxFilesOpen = 1], opening [a.ts] and then [b.ts] leaves both tabs in
    the list, which is then longer than the capacity.  The list holds no
    duplicate, but the eviction computed by the first [setOpenedFiles] is
    replaced by the second, which appends to the rendered array. *)
Theorem openFile_exceeds_maxFilesOpen :
  openedFiles
    (run (Some 1) [OpenFile "/proj/src/a.ts"; OpenFile "/proj/src/b.ts"] initialState)
  = ["/proj/src/a.ts"; "/proj/src/b.ts"]
  ∧ 1 < Z.of_nat (length (openedFiles
        (run (Some 1) [OpenFile "/proj/src/a.ts"; OpenFile "/proj/src/b.ts"] initialState))).
Proof. split; [reflexivity | vm_compute; reflexivity]. Qed.

(** C3 (opening [maxOpen + 1] distinct files evicts the first one), at the
    default capacity of five: after six distinct files are opened in order
    the list is [f1 .. f6], not [f2 .. f6]; the oldest tab is still the
    first entry. *)
Theorem openFile_keeps_oldest :
  openedFiles
    (run None (OpenFile <$> ["/p/f1"; "/p/f2"; "/p/f3"; "/p/f4"; "/p/f5"; "/p/f6"])
       initialState)
  = ["/p/f1"; "/p/f2"; "/p/f3"; "/p/f4"; "/p/f5"; "/p/f6"]
  ∧ maxFilesOpen_or_5 None = 5.
Proof. split; reflexivity. Qed.

(** ** Closing the selected tab *)

(** C4: when the closed path is the selection, the new selection is the
    entry at index [length - 2] of the tab list as it was before the
    removal; when there is no such entry the read gives [undefined], and no
    path is selected. *)
Theorem closeFile_selected_fallback (p : string) (st : FileStoreState) :
  selectedPath st = SelPath p →
  selectedPath (closeFile p st)
  = selection_of_read (index (openedFiles st) (Z.of_nat (length (openedFiles st)) - 2))
  ∧ (∀ q, index (openedFiles st) (Z.of_nat (length (openedFiles st)) - 2) = Some q →
          selectedPath (closeFile p st) = SelPath q)
  ∧ (index (openedFiles st) (Z.of_nat (length (openedFiles st)) - 2) = None →
          no_selection (selectedPath (closeFile p st)) = true)
  ∧ ((length (openedFiles st) < 2)%nat →
          index (openedFiles st) (Z.of_nat (length (openedFiles st)) - 2) = None).
Proof.
  intros Hsel.
  assert (Hnew : selectedPath (closeFile p st)
            = selection_of_read
                (index (openedFiles st) (Z.of_nat (length (openedFiles st)) - 2))).
  { unfold closeFile, handleCloseFile.
    apply selection_is_true in Hsel. by rewrite Hsel. }
  split; [exact Hnew|]. rewrite Hnew. split; [|split].
  - by intros q ->.
  - by intros ->.
  - intros Hlen. destruct (openedFiles st) as [|a [|b l]]; simpl in *; [done..|lia].
Qed.

(** With tabs [a, b, c] and [c] selected, closing [c] selects [b]; closing
    the only open tab leaves no selection. *)
Lemma closeFile_selected_fallback_witness :
  selectedPath
    (closeFile "/p/c" (run None [OpenFile "/p/a"; OpenFile "/p/b"; OpenFile "/p/c"] initialState))
  = SelPath "/p/b"
  ∧ no_selection (selectedPath (closeFile "/p/a" (run None [OpenFile "/p/a"] initialState)))
  = true.
Proof.
  split.
  - destruct (closeFile_selected_fallback "/p/c"
                (run None [OpenFile "/p/a"; OpenFile "/p/b"; OpenFile "/p/c"] initialState)
                eq_refl) as (_ & Hsome & _).
    apply Hsome. reflexivity.
  - destruct (closeFile_selected_fallback "/p/a"
                (run None [OpenFile "/p/a"] initialState) eq_refl) as (_ & _ & Hnone & _).
    apply Hnone. reflexivity.
Defined.

(** ** Selecting a tab *)

(** C6, as stated, fails at the empty store: selecting a path that is not
    open selects it. *)
Lemma selectFile_unopened_selects :
  includes (openedFiles initialState) "/p/x" = false
  ∧ selectedPath (selectFile "/p/x" initialState) = SelPath "/p/x"
  ∧ selectFile "/p/x" initialState ≠ initialState.
Proof. repeat split; [done..|discriminate]. Qed.

(** C6, amended: [selectFile] makes its argument the selection whether or
    not it is an open tab, and changes neither the tab list nor the set of
    expanded paths. *)
Theorem selectFile_sets_selection (p : string) (st : FileStoreState) :
  selectedPath (selectFile p st) = SelPath p
  ∧ openedFiles (selectFile p st) = openedFiles st
  ∧ expandedPaths (selectFile p st) = expandedPaths st.
Proof. done. Qed.

(** ** The selection is an open tab *)

(** C5, as stated, fails: from the empty store a single select leaves a
    selection that is not an open tab. *)
Lemma selection_not_open_after_select :
  selection_open (run None [SelectFile "/p/x"] initialState) = false.
Proof. reflexivity. Qed.

(** Closing the selected tab while it is the entry at index [length - 2]
    is outside the amended statement: the fallback is then the closed path
    itself. *)
Example closeFile_selects_closed_path :
  let st := run None [OpenFile "/p/a"; OpenFile "/p/b"; OpenFile "/p/a"] initialState in
  openedFiles st = ["/p/a"; "/p/b"]
  ∧ selectedPath st = SelPath "/p/a"
  ∧ openedFiles (closeFile "/p/a" st) = ["/p/b"]
  ∧ selectedPath (closeFile "/p/a" st) = SelPath "/p/a".
Proof. repeat split. Qed.

Lemma index_Some_elem (arr : list string) (i : Z) (q : string) :
  index arr i = Some q → q ∈ arr.
Proof.
  unfold index. destruct (i <? 0); [done|]. apply list_elem_of_lookup_2.
Qed.

Lemma step_selection_open (m : option Z) (i : Intent) (st : FileStoreState) :
  selection_open st = true →
  admissible i st = true →
  selection_open (step m i st) = true.
Proof.
  intros Hsel Hadm. destruct i as [p|p|p]; unfold step.
  - unfold selection_open. rewrite openFile_selectedPath, openFile_openedFiles.
    apply includes_true.
    destruct (includes (openedFiles st) p) eqn:Hin.
    + by apply includes_true.
    + apply elem_of_app. right. by apply list_elem_of_singleton.
  - unfold admissible in Hadm. unfold selection_open.
    rewrite closeFile_openedFiles.
    unfold closeFile, handleCloseFile.
    destruct (selection_is (selectedPath st) p) eqn:Hp.
    + apply negb_true_iff, bool_decide_eq_false in Hadm.
      cbn [selectedPath setSelectedPath].
      destruct (index (openedFiles st) _) as [q|] eqn:Hq; [|done].
      cbn [selection_of_read].
      apply includes_true, list_elem_of_filter. split.
      * intros ->. done.
      * by eapply index_Some_elem.
    + unfold selection_open in Hsel.
      cbn [selectedPath setOpenedFiles].
      destruct (selectedPath st) as [| |q] eqn:Hq; [done..|].
      apply includes_true, list_elem_of_filter. split.
      * intros ->. simpl in Hp. by rewrite String.eqb_refl in Hp.
      * by apply includes_true.
  - exact Hadm.
Qed.

(** C5, amended: from the empty store, after any sequence of intents in
    which every select names a tab that is open at that moment and no close
    closes the selected tab while it is the entry at index [length - 2],
    the selection is absent or is an open tab. *)
Theorem admissible_run_selection_open (m : option Z) (intents : list Intent) :
  admissible_run m intents initialState = true →
  selection_open (run m intents initialState) = true.
Proof.
  assert (Hgen : ∀ st, selection_open st = true →
            admissible_run m intents st = true →
            selection_open (run m intents st) = true).
  { induction intents as [|i intents IH]; intros st Hsel Hadm; [done|].
    cbn [admissible_run] in Hadm. apply andb_true_iff in Hadm as [Hi Hrest].
    rewrite run_cons. apply IH; [by apply step_selection_open | done]. }
  by apply Hgen.
Qed.

Lemma admissible_run_selection_open_witness :
  selection_open
    (run (Some 2)
       [OpenFile "/p/a"; OpenFile "/p/b"; OpenFile "/p/c"; SelectFile "/p/a";
        CloseFile "/p/a"; CloseFile "/p/c"; CloseFile "/p/b"] initialState) = true.
Proof. apply (admissible_run_selection_open (Some 2)). reflexivity. Defined.

(** ** Expanded paths *)

Lemma toggleExpanded_expandedPaths (p : string) (st : FileStoreState) :
  expandedPaths (toggleExpanded p st) =
  if bool_decide (p ∈ expandedPaths st) then expandedPaths st ∖ {[ p ]}
  else expandedPaths st ∪ {[ p ]}.
Proof. done. Qed.

(** C10: [toggleExpanded p] flips the membership of [p] in the set of
    expanded paths, keeps the membership of every other path, and applied
    twice gives back the set, and the whole store, it started from. *)
Theorem toggleExpanded_flips_only_path (p : string) (st : FileStoreState) :
  (p ∈ expandedPaths (toggleExpanded p st) ↔ p ∉ expandedPaths st)
  ∧ (∀ q, q ≠ p →
       (q ∈ expandedPaths (toggleExpanded p st) ↔ q ∈ expandedPaths st))
  ∧ expandedPaths (toggleExpanded p (toggleExpanded p st)) = expandedPaths st
  ∧ toggleExpanded p (toggleExpanded p st) = st.
Proof.
  assert (Htwice : expandedPaths (toggleExpanded p (toggleExpanded p st))
                   = expandedPaths st).
  { rewrite !toggleExpanded_expandedPaths.
    destruct (bool_decide (p ∈ expandedPaths st)) eqn:Hin.
    - apply bool_decide_eq_true in Hin.
      rewrite bool_decide_eq_false_2 by set_solver.
      apply set_eq. intros q. destruct (decide (q = p)); set_solver.
    - apply bool_decide_eq_false in Hin.
      rewrite bool_decide_eq_true_2 by set_solver.
      set_solver. }
  split; [|split; [|split]].
  - rewrite toggleExpanded_expandedPaths. case_bool_decide; set_solver.
  - intros q Hq. rewrite toggleExpanded_expandedPaths. case_bool_decide; set_solver.
  - exact Htwice.
  - destruct st as [e s o]. unfold toggleExpanded at 1.
    rewrite <- toggleExpanded_expandedPaths, Htwice. done.
Qed.

Lemma toggleExpanded_flips_only_path_witness :
  "/p/src" ∈ expandedPaths (toggleExpanded "/p/lib" (toggleExpanded "/p/src" initialState))
  ∧ "/p/src" ∉ expandedPaths (toggleExpanded "/p/src" (toggleExpanded "/p/src" initialState)).
Proof.
  split.
  - apply (proj1 (proj2 (toggleExpanded_flips_only_path "/p/lib"
                           (toggleExpanded "/p/src" initialState))) "/p/src").
    + discriminate.
    + apply (proj1 (toggleExpanded_flips_only_path "/p/src" initialState)).
      apply not_elem_of_empty.
  - rewrite (proj1 (proj2 (proj2 (toggleExpanded_flips_only_path "/p/src" initialState)))).
    apply not_elem_of_empty.
Defined.

(** ** Sorting with a consistent comparator *)

Section SortFacts.

Context {A : Type} (cmp : A → A → Z).

(** What the language asks of a comparator, as far as the order of the
    result depends on it: a pair that compares greater one way compares
    smaller the other way, and "not greater" is transitive. *)
Hypothesis cmp_swap : ∀ a b, 0 < cmp a b → cmp b a < 0.
Hypothesis cmp_trans : ∀ a b c, cmp a b ≤ 0 → cmp b c ≤ 0 → cmp a c ≤ 0.

Lemma sort_insert_Permutation (x : A) (l : list A) : sort_insert cmp x l ≡ₚ x :: l.
Proof.
  induction l as [|y l IH]; [done|]. cbn [sort_insert].
  destruct (0 <? cmp x y); [|done].
  rewrite IH. apply Permutation_swap.
Qed.

Lemma sort_Permutation (l : list A) : sort cmp l ≡ₚ l.
Proof.
  induction l as [|x l IH]; [done|].
  unfold sort in *. cbn [foldr]. by rewrite sort_insert_Permutation, IH.
Qed.

Lemma sort_insert_StronglySorted (x : A) (l : list A) :
  StronglySorted (not_after cmp) l → StronglySorted (not_after cmp) (sort_insert cmp x l).
Proof using cmp_swap cmp_trans.
  induction 1 as [|y l Hsorted IH Hall]; cbn [sort_insert].
  - repeat constructor.
  - destruct (Z.ltb_spec 0 (cmp x y)) as [Hgt|Hle].
    + constructor; [exact IH|].
      rewrite sort_insert_Permutation. constructor; [|done].
      unfold not_after. specialize (cmp_swap _ _ Hgt). lia.
    + constructor; [by constructor|].
      constructor; [done|].
      eapply Forall_impl; [exact Hall|].
      intros z Hz. by apply (cmp_trans x y z).
Qed.

Lemma sort_StronglySorted (l : list A) : StronglySorted (not_after cmp) (sort cmp l).
Proof using cmp_swap cmp_trans.
  induction l as [|x l IH]; [constructor|].
  unfold sort in *. cbn [foldr]. by apply sort_insert_StronglySorted.
Qed.

(** An array that is in order is left as it is. *)
Lemma sort_sorted_id (l : list A) : StronglySorted (not_after cmp) l → sort cmp l = l.
Proof.
  induction 1 as [|x l Hsorted IH Hall]; [done|].
  unfold sort in *. cbn [foldr]. rewrite IH.
  destruct Hall as [|y l Hxy _]; [done|]. cbn [sort_insert].
  by destruct (Z.ltb_spec 0 (cmp x y)); [unfold not_after in Hxy; lia|].
Qed.

Lemma sort_idempotent (l : list A) : sort cmp (sort cmp l) = sort cmp l.
Proof using cmp_swap cmp_trans. apply sort_sorted_id, sort_StronglySorted. Qed.

(** The sort is stable: the elements that compare equal to a given one
    keep their order. *)
Lemma sort_insert_filter_equal (x z : A) (l : list A) :
  filter (λ y, cmp x y = 0) (sort_insert cmp z l) = filter (λ y, cmp x y = 0) (z :: l).
Proof using cmp_swap cmp_trans.
  induction l as [|y l IH]; [done|]. cbn [sort_insert].
  destruct (Z.ltb_spec 0 (cmp z y)) as [Hgt|Hle]; [|done].
  rewrite (filter_cons _ y), IH, !filter_cons.
  destruct (decide (cmp x y = 0)) as [Hy|Hy], (decide (cmp x z = 0)) as [Hz|Hz];
    try done.
  assert (Hzx : cmp z x ≤ 0).
  { destruct (Z.ltb_spec 0 (cmp z x)) as [Hpos|?]; [|done].
    specialize (cmp_swap _ _ Hpos). lia. }
  assert (cmp z y ≤ 0) by (apply (cmp_trans z x y); lia). lia.
Qed.

Lemma sort_stable (x : A) (l : list A) :
  filter (λ y, cmp x y = 0) (sort cmp l) = filter (λ y, cmp x y = 0) l.
Proof using cmp_swap cmp_trans.
  induction l as [|z l IH]; [done|].
  unfold sort in *. cbn [foldr].
  by rewrite sort_insert_filter_equal, !filter_cons, IH.
Qed.

Lemma StronglySorted_lookup_lt (R : relation A) (l : list A) (i j : nat) (a b : A) :
  StronglySorted R l → (i < j)%nat → l !! i = Some a → l !! j = Some b → R a b.
Proof.
  intros Hsorted. revert i j.
  induction Hsorted as [|x l Hsorted IH Hall]; intros i j Hij Hi Hj; [done|].
  destruct j as [|j]; [lia|]. cbn in Hj.
  destruct i as [|i]; cbn in Hi.
  - injection Hi as ->. rewrite Forall_forall in Hall.
    apply Hall. by eapply list_elem_of_lookup_2.
  - apply (IH i j); [lia|done..].
Qed.

End SortFacts.

(** ** The order of the child rows *)

Section ChildOrderFacts.

Variable localeCompare : string → string → Z.

(** [localeCompare] is required to be a consistent comparator that orders
    all strings. *)
Hypothesis localeCompare_swap : ∀ a b, 0 < localeCompare a b → localeCompare b a < 0.
Hypothesis localeCompare_trans :
  ∀ a b c, localeCompare a b ≤ 0 → localeCompare b c ≤ 0 → localeCompare a c ≤ 0.

Lemma compareChildren_swap (a b : FileExplorer) :
  0 < compareChildren localeCompare a b → compareChildren localeCompare b a < 0.
Proof using localeCompare_swap.
  unfold compareChildren.
  destruct (type a), (type b); cbn; try lia; apply localeCompare_swap.
Qed.

Lemma compareChildren_trans (a b c : FileExplorer) :
  compareChildren localeCompare a b ≤ 0 → compareChildren localeCompare b c ≤ 0 →
  compareChildren localeCompare a c ≤ 0.
Proof using localeCompare_trans.
  unfold compareChildren.
  destruct (type a), (type b), (type c); cbn; try lia; apply localeCompare_trans.
Qed.

(** A child that is not after another one in the comparator's order is a
    directory if the other one is, and has the smaller or an equal name
    if both are of one kind. *)
Lemma compareChildren_not_after (a b : FileExplorer) :
  compareChildren localeCompare a b ≤ 0 →
  (type b = directory → type a = directory)
  ∧ (type a = type b → localeCompare (name a) (name b) ≤ 0).
Proof.
  unfold compareChildren.
  destruct (type a), (type b); cbn; intros H; (split; intros Heq); try done; lia.
Qed.

(** C7: the child rows of a directory are its children rearranged so
    that every directory comes before every file and, among directories
    and among files, names ascend in the order of [localeCompare]; the
    rows depend on the item alone, and rendering the item again, after the
    sort has reordered its [children], gives the same rows. *)
Theorem FileTree_rows_ordered (item : FileExplorer) (rows : list FileExplorer) :
  FileTree_rows localeCompare item = Some rows →
  (∃ cs, children item = Some cs ∧ rows ≡ₚ cs)
  ∧ (∀ i j a b, (i < j)%nat → rows !! i = Some a → rows !! j = Some b →
       (type b = directory → type a = directory)
       ∧ (type a = type b → localeCompare (name a) (name b) ≤ 0))
  ∧ FileTree_rows localeCompare (FileTree_render localeCompare item) = Some rows.
Proof using localeCompare_swap localeCompare_trans.
  unfold FileTree_rows, FileTree_render.
  destruct (type_is (type item) directory) eqn:Hdir; [|done].
  destruct (children item) as [cs|] eqn:Hcs; [|done].
  cbn. intros [= <-]. split; [|split].
  - exists cs. split; [done|]. apply sort_Permutation.
  - intros i j a b Hij Hi Hj. apply compareChildren_not_after.
    change (not_after (compareChildren localeCompare) a b).
    eapply (StronglySorted_lookup_lt _ _ i j); [|done..].
    apply sort_StronglySorted.
    + apply compareChildren_swap.
    + apply compareChildren_trans.
  - rewrite Hdir. f_equal.
    apply sort_idempotent; [apply compareChildren_swap | apply compareChildren_trans].
Qed.

End ChildOrderFacts.

Lemma codeUnitCompare_swap (a b : string) :
  0 < codeUnitCompare a b → codeUnitCompare b a < 0.
Proof.
  unfold codeUnitCompare. rewrite (String.compare_antisym a b).
  destruct (String.compare b a); cbn; lia.
Qed.

Lemma codeUnitCompare_trans (a b c : string) :
  codeUnitCompare a b ≤ 0 → codeUnitCompare b c ≤ 0 → codeUnitCompare a c ≤ 0.
Proof.
  unfold codeUnitCompare.
  destruct (String.compare a b) eqn:Hab; [| |lia].
  - apply String.compare_eq_iff in Hab as ->. done.
  - destruct (String.compare b c) eqn:Hbc; [| |lia].
    + apply String.compare_eq_iff in Hbc as <-. by rewrite Hab.
    + intros _ _.
      apply OrderedTypeEx.String_as_OT.cmp_lt in Hab, Hbc.
      pose proof (OrderedTypeEx.String_as_OT.lt_trans _ _ _ Hab Hbc) as Hac.
      apply OrderedTypeEx.String_as_OT.cmp_lt in Hac.
      unfold OrderedTypeEx.String_as_OT.cmp in Hac. by rewrite Hac.
Qed.

Lemma FileTree_rows_ordered_witness :
  FileTree_rows codeUnitCompare mixedDir
  = Some [dirNode "lib" []; dirNode "src" []; fileNode "a.ts" "a"; fileNode "b.ts" "b"]
  ∧ ∀ i j a b, (i < j)%nat →
      [dirNode "lib" []; dirNode "src" []; fileNode "a.ts" "a"; fileNode "b.ts" "b"] !! i
      = Some a →
      [dirNode "lib" []; dirNode "src" []; fileNode "a.ts" "a"; fileNode "b.ts" "b"] !! j
      = Some b →
      (type b = directory → type a = directory)
      ∧ (type a = type b → codeUnitCompare (name a) (name b) ≤ 0).
Proof.
  split; [reflexivity|].
  exact (proj1 (proj2 (FileTree_rows_ordered codeUnitCompare
                         codeUnitCompare_swap codeUnitCompare_trans mixedDir
                         [dirNode "lib" []; dirNode "src" []; fileNode "a.ts" "a";
                          fileNode "b.ts" "b"]
                         eq_refl))).
Defined.

(** ** The tree under rendering *)

(** Rendering keeps every field of the item but [children], and keeps the
    children themselves: only their order can change. *)
Lemma FileTree_render_fields (localeCompare : string → string → Z) (item : FileExplorer) :
  name (FileTree_render localeCompare item) = name item
  ∧ type (FileTree_render localeCompare item) = type item
  ∧ content (FileTree_render localeCompare item) = content item
  ∧ language (FileTree_render localeCompare item) = language item
  ∧ match children (FileTree_render localeCompare item), children item with
    | Some cs', Some cs => cs' ≡ₚ cs
    | None, None => True
    | _, _ => False
    end.
Proof.
  unfold FileTree_render. destruct (type_is (type item) directory).
  - repeat split. cbn. destruct (children item); [apply sort_Permutation|done].
  - repeat split. by destruct (children item).
Qed.

(** C9 (no operation changes the tree it is given), at a directory whose
    children list a file before a directory: after [FileTree] has rendered
    the item, its [children] array holds the directory first, whatever the
    collation is.  The array was sorted in place. *)
Theorem FileTree_render_reorders_children (localeCompare : string → string → Z) :
  children
    (FileTree_render localeCompare (dirNode "proj" [fileNode "a.ts" "x"; dirNode "src" []]))
  = Some [dirNode "src" []; fileNode "a.ts" "x"]
  ∧ FileTree_render localeCompare (dirNode "proj" [fileNode "a.ts" "x"; dirNode "src" []])
    ≠ dirNode "proj" [fileNode "a.ts" "x"; dirNode "src" []].
Proof. split; [reflexivity|discriminate]. Qed.

(** ** Search *)

Lemma append_empty_r (s : string) : s +:+ "" = s.
Proof.
  induction s as [|c s IH]; [done|].
  change (String c (s +:+ "") = String c s). by rewrite IH.
Qed.

Lemma append_assoc (a b c : string) : (a +:+ b) +:+ c = a +:+ (b +:+ c).
Proof.
  induction a as [|x a IH]; [done|].
  change (String x ((a +:+ b) +:+ c) = String x (a +:+ (b +:+ c))). by rewrite IH.
Qed.

Lemma prefix_spec (q s : string) :
  String.prefix q s = true ↔ ∃ post, s = q +:+ post.
Proof.
  revert s. induction q as [|a q IH]; intros s.
  - split; [intros _; by exists s|]. by destruct s.
  - destruct s as [|b s]; cbn.
    + split; [done|]. by intros [post ?].
    + destruct (ascii_dec a b) as [->|Hne].
      * rewrite IH. split; intros [post Hpost]; exists post; [by rewrite Hpost|].
        by injection Hpost.
      * split; [done|]. intros [post Hpost]. injection Hpost as Hab _. congruence.
Qed.

Lemma includes_unfold (s q : string) :
  JsString.includes s q =
  if String.prefix q s then true
  else match s with
       | EmptyString => false
       | String _ s' => JsString.includes s' q
       end.
Proof. by destruct s. Qed.

(** [includes] finds exactly the substrings. *)
Lemma includes_spec (s q : string) :
  JsString.includes s q = true ↔ ∃ pre post, s = pre +:+ q +:+ post.
Proof.
  split.
  - induction s as [|c s IH]; rewrite includes_unfold;
      destruct (String.prefix q _) eqn:Hpre.
    + intros _. apply prefix_spec in Hpre as [post ->]. by exists "", post.
    + done.
    + intros _. apply prefix_spec in Hpre as [post ->]. by exists "", post.
    + intros [pre [post ->]]%IH. by exists (String c pre), post.
  - intros (pre & post & ->).
    induction pre as [|c pre IH]; rewrite includes_unfold.
    + replace (String.prefix q ("" +:+ q +:+ post)) with true; [done|].
      symmetry. apply prefix_spec. by exists post.
    + destruct (String.prefix q _); [done|]. exact IH.
Qed.

Lemma is_upper_code_spec (n : nat) :
  is_upper_code n = true ↔
  (65 ≤ n ≤ 90)%nat ∨ (192 ≤ n ≤ 214)%nat ∨ (216 ≤ n ≤ 222)%nat.
Proof.
  unfold is_upper_code.
  rewrite !orb_true_iff, !andb_true_iff, !Nat.leb_le. tauto.
Qed.

Lemma fold_case_code (c : ascii) :
  nat_of_ascii (fold_case c) =
  if is_upper_code (nat_of_ascii c) then (nat_of_ascii c + 32)%nat else nat_of_ascii c.
Proof.
  unfold fold_case. destruct (is_upper_code (nat_of_ascii c)) eqn:Hup; [|done].
  apply is_upper_code_spec in Hup. apply nat_ascii_embedding. lia.
Qed.

Lemma nat_of_ascii_inj (a b : ascii) : nat_of_ascii a = nat_of_ascii b → a = b.
Proof.
  intros H. rewrite <- (ascii_nat_embedding a), <- (ascii_nat_embedding b). by rewrite H.
Qed.

(** Folding identifies exactly the code units that are the same when case
    is disregarded. *)
Lemma fold_case_same_letter (a b : ascii) :
  fold_case a = fold_case b ↔ same_letter a b.
Proof.
  unfold same_letter, case_pair. split.
  - intros H. apply (f_equal nat_of_ascii) in H. rewrite !fold_case_code in H.
    destruct (is_upper_code (nat_of_ascii a)) eqn:Ha,
             (is_upper_code (nat_of_ascii b)) eqn:Hb;
      try apply is_upper_code_spec in Ha; try apply is_upper_code_spec in Hb.
    + left. apply nat_of_ascii_inj. lia.
    + right. left. split; [lia|done].
    + right. right. split; [lia|done].
    + left. by apply nat_of_ascii_inj.
  - intros [->|[[Hcode Hup]|[Hcode Hup]]]; [done| |].
    + apply nat_of_ascii_inj. rewrite !fold_case_code.
      assert (Ha : is_upper_code (nat_of_ascii a) = true) by by apply is_upper_code_spec.
      assert (Hb : is_upper_code (nat_of_ascii b) = false).
      { destruct (is_upper_code (nat_of_ascii b)) eqn:Hb; [|done].
        apply is_upper_code_spec in Hb. lia. }
      rewrite Ha, Hb. lia.
    + apply nat_of_ascii_inj. rewrite !fold_case_code.
      assert (Hb : is_upper_code (nat_of_ascii b) = true) by by apply is_upper_code_spec.
      assert (Ha : is_upper_code (nat_of_ascii a) = false).
      { destruct (is_upper_code (nat_of_ascii a)) eqn:Ha; [|done].
        apply is_upper_code_spec in Ha. lia. }
      rewrite Ha, Hb. lia.
Qed.

Lemma fold_text_same_text (s t : string) :
  fold_text s = fold_text t ↔ same_text s t.
Proof.
  revert t. induction s as [|a s IH]; intros [|b t]; cbn [fold_text same_text]; try done.
  rewrite <- IH, <- fold_case_same_letter. split; [by intros [= -> ->]|by intros [-> ->]].
Qed.

Lemma fold_text_app (s t : string) : fold_text (s +:+ t) = fold_text s +:+ fold_text t.
Proof.
  induction s as [|a s IH]; [done|].
  change (String (fold_case a) (fold_text (s +:+ t))
          = String (fold_case a) (fold_text s +:+ fold_text t)). by rewrite IH.
Qed.

Lemma fold_text_app_inv (s x y : string) :
  fold_text s = x +:+ y → ∃ s1 s2, s = s1 +:+ s2 ∧ fold_text s1 = x ∧ fold_text s2 = y.
Proof.
  revert s. induction x as [|c x IH]; intros s Hs.
  - by exists "", s.
  - destruct s as [|a s]; [done|].
    change (String (fold_case a) (fold_text s) = String c (x +:+ y)) in Hs.
    injection Hs as Ha Hrest.
    destruct (IH s Hrest) as (s1 & s2 & -> & H1 & H2).
    exists (String a s1), s2. repeat split; [|done]. cbn [fold_text]. by rewrite Ha, H1.
Qed.

(** The match of a line is an occurrence of the query in it, case
    disregarded. *)
Lemma line_has_spec (q line : string) :
  line_has q line = true ↔ occurs_ignoring_case q line.
Proof.
  unfold line_has, occurs_ignoring_case. rewrite includes_spec. split.
  - intros (x & z & Hline).
    apply fold_text_app_inv in Hline as (pre & rest & -> & _ & Hrest).
    apply fold_text_app_inv in Hrest as (part & post & -> & Hpart & _).
    exists pre, part, post. split; [done|]. by apply fold_text_same_text.
  - intros (pre & part & post & -> & Hsame%fold_text_same_text).
    exists (fold_text pre), (fold_text post). by rewrite !fold_text_app, Hsame.
Qed.

Lemma no_line_feed_cons (c : ascii) (l : string) :
  (∀ pre post, String c l ≠ pre +:+ String "010" post) ↔
  c ≠ "010"%char ∧ (∀ pre post, l ≠ pre +:+ String "010" post).
Proof.
  split.
  - intros Hno. split.
    + intros ->. by apply (Hno "" l).
    + intros pre post ->. by apply (Hno (String c pre) post).
  - intros [Hc Hl] [|d pre] post.
    + intros [= -> _]. done.
    + intros [= _ Heq]. by apply (Hl pre post).
Qed.

Lemma no_line_feed_snoc (l : string) (c : ascii) :
  (∀ pre post, l ≠ pre +:+ String "010" post) → c ≠ "010"%char →
  ∀ pre post, l +:+ String c "" ≠ pre +:+ String "010" post.
Proof.
  intros Hl Hc. induction l as [|d l IH].
  - apply no_line_feed_cons. split; [done|]. by intros [|??] ?.
  - apply no_line_feed_cons in Hl as [Hd Hl].
    change (∀ pre post, String d (l +:+ String c "") ≠ pre +:+ String "010" post).
    apply no_line_feed_cons. split; [done|by apply IH].
Qed.

Lemma rev_app_append (cur acc : string) :
  String.rev_app cur acc = String.rev cur +:+ acc.
Proof.
  revert acc. induction cur as [|c cur IH]; intros acc; [done|].
  unfold String.rev. cbn [String.rev_app].
  rewrite (IH (String c acc)), (IH (String c "")). by rewrite append_assoc.
Qed.

Lemma rev_cons (c : ascii) (cur : string) :
  String.rev (String c cur) = String.rev cur +:+ String c "".
Proof. unfold String.rev at 1. cbn [String.rev_app]. apply rev_app_append. Qed.

Lemma split_lines_acc_not_nil (cur s : string) : JsString.split_lines_acc cur s ≠ [].
Proof.
  revert cur. induction s as [|c s IH]; intros cur; [done|].
  cbn [JsString.split_lines_acc]. destruct (Ascii.eqb c "010"); [done|apply IH].
Qed.

Lemma concat_cons (sep x : string) (ls : list string) :
  ls ≠ [] → String.concat sep (x :: ls) = x +:+ sep +:+ String.concat sep ls.
Proof. by destruct ls. Qed.

(** Joined with line feeds, the pieces give back what was split. *)
Lemma split_lines_acc_concat (cur s : string) :
  String.concat (String "010" "") (JsString.split_lines_acc cur s) = String.rev cur +:+ s.
Proof.
  revert cur. induction s as [|c s IH]; intros cur; cbn [JsString.split_lines_acc].
  - cbn [String.concat]. by rewrite append_empty_r.
  - destruct (Ascii.eqb_spec c "010") as [->|Hc].
    + rewrite concat_cons by apply split_lines_acc_not_nil. by rewrite IH.
    + by rewrite IH, rev_cons, append_assoc.
Qed.

Lemma split_lines_acc_no_line_feed (cur s : string) :
  (∀ pre post, String.rev cur ≠ pre +:+ String "010" post) →
  Forall (λ line, ∀ pre post, line ≠ pre +:+ String "010" post)
    (JsString.split_lines_acc cur s).
Proof.
  revert cur. induction s as [|c s IH]; intros cur Hcur; cbn [JsString.split_lines_acc].
  - by constructor.
  - destruct (Ascii.eqb_spec c "010") as [->|Hc].
    + constructor; [done|]. apply IH. by intros [|??] ?.
    + apply IH. rewrite rev_cons. by apply no_line_feed_snoc.
Qed.

(** The pieces [split("\n")] gives are the lines of the buffer. *)
Lemma split_lines_lines_of (buffer : string) :
  lines_of buffer (JsString.split_lines buffer).
Proof.
  unfold lines_of, JsString.split_lines. split; [apply split_lines_acc_not_nil|]. split.
  - apply split_lines_acc_no_line_feed. by intros [|??] ?.
  - apply split_lines_acc_concat.
Qed.

Lemma line_feed_split_unique (x1 x2 r1 r2 : string) :
  (∀ pre post, x1 ≠ pre +:+ String "010" post) →
  (∀ pre post, x2 ≠ pre +:+ String "010" post) →
  x1 +:+ String "010" r1 = x2 +:+ String "010" r2 →
  x1 = x2 ∧ r1 = r2.
Proof.
  revert x2. induction x1 as [|c x1 IH]; intros [|d x2] H1 H2 Heq.
  - by injection Heq.
  - apply no_line_feed_cons in H2 as [Hd _]. injection Heq as Hc _. congruence.
  - apply no_line_feed_cons in H1 as [Hc _]. injection Heq as Hd _. congruence.
  - apply no_line_feed_cons in H1 as [_ H1]. apply no_line_feed_cons in H2 as [_ H2].
    injection Heq as -> Heq. destruct (IH x2 H1 H2 Heq) as [-> ->]. done.
Qed.

(** A buffer has one list of lines only. *)
Lemma lines_of_unique (buffer : string) (ls1 ls2 : list string) :
  lines_of buffer ls1 → lines_of buffer ls2 → ls1 = ls2.
Proof.
  unfold lines_of. revert buffer ls2.
  induction ls1 as [|x1 r1 IH]; intros buffer ls2 (Hne1 & Hno1 & Hcat1) (Hne2 & Hno2 & Hcat2);
    [done|].
  destruct ls2 as [|x2 r2]; [done|].
  apply Forall_cons in Hno1 as [Hx1 Hr1]. apply Forall_cons in Hno2 as [Hx2 Hr2].
  destruct r1 as [|y1 r1], r2 as [|y2 r2].
  - cbn in Hcat1, Hcat2. congruence.
  - rewrite concat_cons in Hcat2 by done. cbn in Hcat1. subst buffer.
    exfalso. by eapply Hx1.
  - rewrite concat_cons in Hcat1 by done. cbn in Hcat2. subst buffer.
    exfalso. by eapply Hx2.
  - rewrite concat_cons in Hcat1, Hcat2 by done. subst buffer.
    apply line_feed_split_unique in Hcat2 as [-> Hrest]; [|done..].
    f_equal.
    apply (IH (String.concat (String "010" "") (y1 :: r1)) (y2 :: r2));
      (split; [done|split; [done|congruence]]).
Qed.

Lemma elem_of_matching_lines (k : Z) (q : string) (lines : list string) (n : Z) :
  n ∈ matching_lines k q lines ↔
  ∃ (i : nat) line, lines !! i = Some line ∧ n = k + Z.of_nat i ∧ line_has q line = true.
Proof.
  revert k. induction lines as [|l lines IH]; intros k; cbn [matching_lines].
  - split; [by intros ?%elem_of_nil|]. by intros (i & line & ? & _).
  - assert (Hrest : n ∈ matching_lines (k + 1) q lines ↔
              ∃ (i : nat) line, (l :: lines) !! S i = Some line
                ∧ n = k + Z.of_nat (S i) ∧ line_has q line = true).
    { rewrite IH. split; intros (i & line & Hi & -> & Hq); exists i, line;
        (split; [done|split; [lia|done]]). }
    destruct (line_has q l) eqn:Hl.
    + rewrite elem_of_cons, Hrest. split.
      * intros [->|(i & line & ?)]; [|by exists (S i), line].
        exists 0%nat, l. split; [done|split; [lia|done]].
      * intros ([|i] & line & Hi & Hn & Hq); [left; lia|right; by exists i, line].
    + rewrite Hrest. split.
      * intros (i & line & ?). by exists (S i), line.
      * intros ([|i] & line & Hi & Hn & Hq); [|by exists i, line].
        cbn in Hi. congruence.
Qed.

Lemma matching_lines_sorted (k : Z) (q : string) (lines : list string) :
  StronglySorted Z.lt (matching_lines k q lines).
Proof.
  revert k. induction lines as [|l lines IH]; intros k; cbn [matching_lines];
    [constructor|].
  destruct (line_has q l); [|apply IH].
  constructor; [apply IH|].
  apply Forall_forall. intros n (i & line & _ & -> & _)%elem_of_matching_lines. lia.
Qed.

(** C8: [setQuery] gives as matches the ascending line numbers, counted
    from 1, of the lines of the buffer in which the query occurs when case
    is disregarded, where the lines are the texts without line feed that,
    joined with line feeds, are the buffer; the cursor is [0] for a
    non-empty query with a match; an empty query, or one that no line
    holds, gives no match and the cursor [-1]. *)
Theorem setQuery_matches (buffer q : string) :
  query (setQuery buffer q) = q
  ∧ (q ≠ "" →
     (∃ ls, lines_of buffer ls)
     ∧ ∀ ls, lines_of buffer ls →
         (∀ n, n ∈ matches (setQuery buffer q) ↔
            ∃ (i : nat) line, ls !! i = Some line
              ∧ n = Z.of_nat i + 1 ∧ occurs_ignoring_case q line)
         ∧ ((∀ line, line ∈ ls → ¬ occurs_ignoring_case q line) →
              matches (setQuery buffer q) = [] ∧ cursor (setQuery buffer q) = -1))
  ∧ StronglySorted Z.lt (matches (setQuery buffer q))
  ∧ (q ≠ "" → matches (setQuery buffer q) ≠ [] → cursor (setQuery buffer q) = 0)
  ∧ (q = "" → matches (setQuery buffer q) = [] ∧ cursor (setQuery buffer q) = -1)
  ∧ (matches (setQuery buffer q) = [] → cursor (setQuery buffer q) = -1).
Proof.
  unfold setQuery. destruct (String.eqb_spec q "") as [->|Hq]; cbn.
  - split; [done|]. split; [by intros ?|]. split; [constructor|].
    split; [by intros ?|]. by split.
  - split; [done|]. split; [|split; [|split; [|split]]].
    + intros _. split; [exists (JsString.split_lines buffer); apply split_lines_lines_of|].
      intros ls Hls.
      rewrite (lines_of_unique buffer ls _ Hls (split_lines_lines_of buffer)).
      split.
      * intros n. rewrite elem_of_matching_lines.
        split; intros (i & line & Hi & -> & Hl); exists i, line;
          (split; [done|split; [lia|by apply line_has_spec]]).
      * intros Hnone.
        destruct (matching_lines 1 q (JsString.split_lines buffer)) as [|n ns] eqn:Hm;
          [done|].
        exfalso.
        assert (Hn : n ∈ matching_lines 1 q (JsString.split_lines buffer))
          by (rewrite Hm; by left).
        apply elem_of_matching_lines in Hn as (i & line & Hi & _ & Hl).
        apply (Hnone line); [by eapply list_elem_of_lookup_2|by apply line_has_spec].
    + apply matching_lines_sorted.
    + intros _. by destruct (matching_lines _ _ _).
    + done.
    + by destruct (matching_lines _ _ _).
Qed.

(** In a buffer of four lines the query ["Foo"] is found on lines 3 and
    4, in other case and inside a longer word; a capital E with acute
    accent (code unit 201) is found for the small one (233). *)
Example setQuery_lines_and_case :
  matches (setQuery "x
y
foo
AFOOL" "Foo") = [3; 4]
  ∧ matches (setQuery (String "201" "COLE") (String "233" "cole")) = [1].
Proof. split; reflexivity. Qed.

(** The specification's scenario: ["foo"] against the buffer of [b.ts]. *)
Example setQuery_scenario :
  setQuery "foo
bar
" "foo" = mkSearchState "foo" [1] 0.
Proof. reflexivity. Qed.

(** ** Resolving a path *)

Lemma findFileContent_unfold (node : FileExplorer) (targetPath : string) :
  findFileContent node targetPath =
  if String.eqb ("/" +:+ name node) targetPath then
    Some (mkFileContent (content node) (language node))
  else
    match children node with
    | Some cs =>
        first_result
          (λ child,
             findFileContent child (JsString.replace targetPath ("/" +:+ name node) ""))
          cs
    | None => None
    end.
Proof.
  destruct node as [n t cs c l]. cbn [findFileContent name children content language].
  destruct (String.eqb _ _); [done|].
  destruct cs as [cs|]; [|done].
  induction cs as [|child cs IH]; [done|].
  cbn [first_result]. by rewrite <- IH.
Qed.

Lemma first_result_elem {A B} (f : A → option B) (l : list A) (x : A) :
  x ∈ l → is_Some (f x) → is_Some (first_result f l).
Proof.
  induction 1 as [x l|x y l Hin IH]; intros Hx; cbn [first_result].
  - destruct Hx as [r ->]. by exists r.
  - destruct (f y) as [r|]; [by exists r|by apply IH].
Qed.

Lemma drop_app_length (s rest : string) :
  JsString.drop (String.length s) (s +:+ rest) = rest.
Proof. induction s as [|c s IH]; [by destruct rest|exact IH]. Qed.

(** Stripping the node's own segment from a path that starts with it
    leaves the rest of the path. *)
Lemma replace_own_segment (n rest : string) :
  JsString.replace ("/" +:+ n +:+ rest) ("/" +:+ n) "" = rest.
Proof.
  change ("/" +:+ n +:+ rest) with (("/" +:+ n) +:+ rest).
  set (pat := "/" +:+ n).
  assert (Hpre : String.prefix pat (pat +:+ rest) = true)
    by (apply prefix_spec; by exists rest).
  assert (Hunfold : ∀ s, JsString.replace s pat "" =
            if String.prefix pat s then "" +:+ JsString.drop (String.length pat) s
            else match s with
                 | EmptyString => EmptyString
                 | String c s' => String c (JsString.replace s' pat "")
                 end) by (by intros []).
  rewrite Hunfold, Hpre. cbn [String.append]. apply drop_app_length.
Qed.

Lemma find_name_elem (n : string) (cs : list FileExplorer) (child : FileExplorer) :
  List.find (λ c, String.eqb (name c) n) cs = Some child →
  child ∈ cs ∧ name child = n.
Proof.
  induction cs as [|c cs IH]; [done|]. cbn [List.find].
  destruct (String.eqb_spec (name c) n) as [Heq|Hne].
  - intros [= <-]. split; [by left|done].
  - intros [Hin Hname]%IH. split; [by right|done].
Qed.

Lemma findFileContent_descend (names : list string) (node target : FileExplorer) :
  descend node names = Some target →
  is_Some (findFileContent node (path_of (name node :: names))).
Proof.
  revert node. induction names as [|n names IH]; intros node Hdesc;
    rewrite findFileContent_unfold; cbn [path_of].
  - by rewrite append_empty_r, String.eqb_refl.
  - destruct (String.eqb _ _); [done|].
    cbn [descend] in Hdesc.
    destruct (children node) as [cs|]; [|done].
    destruct (List.find _ cs) as [child|] eqn:Hfind; [|done].
    apply find_name_elem in Hfind as [Hin Hname].
    apply (first_result_elem _ _ child Hin).
    rewrite (replace_own_segment (name node) ("/" +:+ n +:+ path_of names)).
    rewrite <- Hname. by apply IH.
Qed.

(** A path that walks the tree from its root is never reported as not
    found: the search reaches the node the path names unless an earlier
    branch has already answered. *)
Theorem findFileContent_finds_walked_path
    (root : FileExplorer) (names : list string) (node : FileExplorer) :
  node_at root names = Some node →
  is_Some (findFileContent root (path_of names)).
Proof.
  destruct names as [|n names]; [done|]. cbn [node_at].
  destruct (String.eqb_spec (name root) n) as [<-|]; [|done].
  apply findFileContent_descend.
Qed.

Lemma findFileContent_finds_walked_path_witness :
  is_Some (findFileContent namesakeTree "/proj/src/index.ts").
Proof.
  exact (findFileContent_finds_walked_path namesakeTree ["proj"; "src"; "index.ts"]
           (fileNode "index.ts" "inner") eq_refl).
Defined.

(** C1 (a path that walks the tree resolves to the node it names, every
    other path is not found), at a tree with pairwise distinct sibling
    names: the path of the root's own [index.ts] resolves to the content
    of [src/index.ts], and the string ["/index.ts"], which names no node
    from the root, is found as well.  Every child is searched with what
    is left of the path once the first occurrence of the node's segment is
    removed, whether or not the path began with that segment: a subtree is
    searched for paths that do not lead into it. *)
Theorem findFileContent_answers_from_other_branch :
  distinct_siblings namesakeTree = true
  ∧ node_at namesakeTree ["proj"; "index.ts"] = Some (fileNode "index.ts" "outer")
  ∧ findFileContent namesakeTree (path_of ["proj"; "index.ts"])
    = Some (mkFileContent (Some "inner") None)
  ∧ node_at namesakeTree ["index.ts"] = None
  ∧ findFileContent namesakeTree (path_of ["index.ts"])
    = Some (mkFileContent (Some "inner") None).
Proof. repeat split. Qed.

(** Siblings [app] and [app2]: in this tree the paths of both children
    resolve to their own content.  Inside [app] the path of [app2]'s child
    is cut down to ["2/main.ts"], which no node path equals. *)
Example findFileContent_prefix_siblings :
  let tree :=
    dirNode "proj"
      [dirNode "app" [fileNode "main.ts" "one"];
       dirNode "app2" [fileNode "main.ts" "two"]] in
  findFileContent tree "/proj/app2/main.ts" = Some (mkFileContent (Some "two") None)
  ∧ findFileContent tree "/proj/app/main.ts" = Some (mkFileContent (Some "one") None)
  ∧ JsString.replace "/app2/main.ts" "/app" "" = "2/main.ts".
Proof. repeat split. Qed.

(** ** The specification's scenario *)

(** With [maxFilesOpen = 1], the rows of [a.ts] and [b.ts] are clicked in
    turn: both paths are open afterwards, [b.ts] is selected, its content
    resolves, and the search for ["foo"] in it finds line 1. *)
Example scenario_run :
  let a := fileNode "a.ts" "x
y
foo
" in
  let b := fileNode "b.ts" "foo
bar
" in
  let st1 := FileTree_onClick (Some 1) (openedFiles initialState) "/proj/src" a initialState in
  let st2 := FileTree_onClick (Some 1) (openedFiles st1) "/proj/src" b st1 in
  openedFiles st1 = ["/proj/src/a.ts"]
  ∧ selectedPath st1 = SelPath "/proj/src/a.ts"
  ∧ openedFiles st2 = ["/proj/src/a.ts"; "/proj/src/b.ts"]
  ∧ selectedPath st2 = SelPath "/proj/src/b.ts"
  ∧ findFileContent scenarioTree "/proj/src/b.ts" = Some (mkFileContent (content b) None)
  ∧ (matches (setQuery "foo
bar
" "foo"), cursor (setQuery "foo
bar
" "foo")) = ([1], 0).
Proof. repeat split. Qed.

(** ** Further properties of the handlers *)

(** From the empty store, no sequence of intents puts a path into the tab
    list twice. *)
Theorem openedFiles_never_repeat (m : option Z) (intents : list Intent) :
  NoDup (openedFiles (run m intents initialState)).
Proof. apply run_NoDup, NoDup_nil_2. Qed.

(** [openFile] selects its path, and the path is an open tab afterwards. *)
Theorem openFile_selects_open_tab (m : option Z) (p : string) (st : FileStoreState) :
  selectedPath (openFile m p st) = SelPath p
  ∧ p ∈ openedFiles (openFile m p st).
Proof.
  split; [done|]. rewrite openFile_openedFiles.
  destruct (includes (openedFiles st) p) eqn:Hin.
  - by apply includes_true.
  - apply elem_of_app. right. by apply list_elem_of_singleton.
Qed.

(** Opening a path that is already open leaves the tab list as it is, in
    the same order, and selects the path. *)
Theorem openFile_open_tab_keeps_order (m : option Z) (p : string) (st : FileStoreState) :
  p ∈ openedFiles st →
  openedFiles (openFile m p st) = openedFiles st
  ∧ selectedPath (openFile m p st) = SelPath p.
Proof.
  intros Hin%includes_true. split; [|done].
  by rewrite openFile_openedFiles, Hin.
Qed.

Lemma openFile_open_tab_keeps_order_witness :
  openedFiles
    (openFile None "/p/a" (run None [OpenFile "/p/a"; OpenFile "/p/b"] initialState))
  = ["/p/a"; "/p/b"]
  ∧ selectedPath
      (openFile None "/p/a" (run None [OpenFile "/p/a"; OpenFile "/p/b"] initialState))
    = SelPath "/p/a".
Proof.
  apply (openFile_open_tab_keeps_order None "/p/a"
           (run None [OpenFile "/p/a"; OpenFile "/p/b"] initialState)).
  by left.
Defined.

(** [closeFile] removes the path from the tab list and keeps the other
    tabs in their order. *)
Theorem closeFile_removes_path (p : string) (st : FileStoreState) :
  (p ∉ openedFiles (closeFile p st))
  ∧ (∀ q, q ≠ p → (q ∈ openedFiles (closeFile p st) ↔ q ∈ openedFiles st))
  ∧ sublist (openedFiles (closeFile p st)) (openedFiles st).
Proof.
  rewrite closeFile_openedFiles. split; [|split].
  - intros [Hne _]%list_elem_of_filter. done.
  - intros q Hq. rewrite list_elem_of_filter. naive_solver.
  - apply sublist_filter.
Qed.

(** A click on a directory, or on the row of a file with a binary
    extension, changes nothing in the store. *)
Theorem FileTree_onClick_rejects (m : option Z) (rendered : list string) (path : string)
    (item : FileExplorer) (st : FileStoreState) :
  type item = directory ∨ isBinaryFile (name item) = true →
  FileTree_onClick m rendered path item st = st.
Proof.
  unfold FileTree_onClick. intros [Hdir|Hbin].
  - by rewrite Hdir.
  - rewrite Hbin. by destruct (type item).
Qed.

Lemma FileTree_onClick_rejects_witness :
  FileTree_onClick None [] "/proj" (fileNode "logo.PNG" "") initialState = initialState
  ∧ FileTree_onClick None [] "/proj" (dirNode "src" []) initialState = initialState.
Proof.
  split.
  - apply FileTree_onClick_rejects. right. reflexivity.
  - apply FileTree_onClick_rejects. left. reflexivity.
Defined.

(** The cursor [setQuery] gives is the one the component computes at
    mount from the results it is handed. *)
Lemma setQuery_cursor_as_at_mount (buffer q : string) :
  cursor (setQuery buffer q) = initialResultIndex (matches (setQuery buffer q)).
Proof.
  unfold setQuery. destruct (String.eqb q ""); [done|]. cbn.
  by destruct (matching_lines _ _ _).
Qed.

(** ** How the tab operations compose *)

Lemma filter_other_absent (p : string) (l : list string) :
  p ∉ l → filter (λ f, f ≠ p) l = l.
Proof.
  induction l as [|x l IH]; [done|]. intros Hp.
  apply not_elem_of_cons in Hp as [Hne Hp].
  rewrite filter_cons_True by done. by rewrite IH.
Qed.

Lemma index_before_last (l : list string) (p : string) :
  index (l ++ [p]) (Z.of_nat (length (l ++ [p])) - 2) = last l.
Proof.
  rewrite length_app. cbn [length].
  destruct l as [|a l _] using rev_ind.
  - by rewrite index_negative.
  - replace (Z.of_nat (length (l ++ [a]) + 1) - 2) with (Z.of_nat (length l))
      by (rewrite length_app; cbn [length]; lia).
    rewrite index_nat, last_snoc, <- app_assoc.
    by rewrite lookup_app_r, Nat.sub_diag.
Qed.

Lemma openFile_expandedPaths (m : option Z) (p : string) (st : FileStoreState) :
  expandedPaths (openFile m p st) = expandedPaths st.
Proof.
  unfold openFile, handleFileOpen.
  destruct (includes (openedFiles st) p); [done|]. cbn. by destruct (_ >=? _).
Qed.

Lemma closeFile_expandedPaths (p : string) (st : FileStoreState) :
  expandedPaths (closeFile p st) = expandedPaths st.
Proof. unfold closeFile, handleCloseFile. by destruct (selection_is _ _). Qed.

(** Opening a path that is not open and closing it again gives back the
    tab list as it was; the selection is then the last tab of that list,
    or [undefined] when the list is empty. *)
Theorem closeFile_openFile_restores_tabs (m : option Z) (p : string) (st : FileStoreState) :
  p ∉ openedFiles st →
  openedFiles (closeFile p (openFile m p st)) = openedFiles st
  ∧ selectedPath (closeFile p (openFile m p st)) = selection_of_read (last (openedFiles st))
  ∧ expandedPaths (closeFile p (openFile m p st)) = expandedPaths st.
Proof.
  intros Hp.
  assert (Hopen : openedFiles (openFile m p st) = openedFiles st ++ [p]).
  { rewrite openFile_openedFiles. by apply includes_false in Hp as ->. }
  split; [|split].
  - rewrite closeFile_openedFiles, Hopen, filter_app, filter_other_absent by done.
    rewrite filter_cons_False by (by intros ?). apply app_nil_r.
  - unfold closeFile, handleCloseFile.
    rewrite openFile_selectedPath, Hopen. cbn [selection_is].
    rewrite String.eqb_refl. cbn [selectedPath setSelectedPath].
    by rewrite index_before_last.
  - by rewrite closeFile_expandedPaths, openFile_expandedPaths.
Qed.

Lemma closeFile_openFile_restores_tabs_witness :
  openedFiles
    (closeFile "/p/c" (openFile None "/p/c" (run None [OpenFile "/p/a"; OpenFile "/p/b"] initialState)))
  = ["/p/a"; "/p/b"]
  ∧ selectedPath
      (closeFile "/p/c" (openFile None "/p/c" (run None [OpenFile "/p/a"; OpenFile "/p/b"] initialState)))
    = SelPath "/p/b".
Proof.
  destruct (closeFile_openFile_restores_tabs None "/p/c"
              (run None [OpenFile "/p/a"; OpenFile "/p/b"] initialState)) as (Htabs & Hsel & _).
  - intros Hin. by repeat (apply elem_of_cons in Hin as [?|Hin]; [done|]);
      apply elem_of_nil in Hin.
  - split; [exact Htabs | exact Hsel].
Defined.

(** Closing a path that is not the selection keeps the selection, and is
    no change at all when the path is not an open tab either. *)
Theorem closeFile_other_path (p : string) (st : FileStoreState) :
  selectedPath st ≠ SelPath p →
  selectedPath (closeFile p st) = selectedPath st
  ∧ (p ∉ openedFiles st → closeFile p st = st).
Proof.
  intros Hsel.
  assert (Hno : selection_is (selectedPath st) p = false).
  { destruct (selection_is (selectedPath st) p) eqn:Hp; [|done].
    by apply selection_is_true in Hp. }
  unfold closeFile, handleCloseFile. rewrite Hno. split; [done|].
  intros Hp. rewrite filter_other_absent by done. by destruct st.
Qed.

Lemma closeFile_other_path_witness :
  selectedPath (closeFile "/p/a" (run None [OpenFile "/p/a"; OpenFile "/p/b"] initialState))
  = SelPath "/p/b"
  ∧ closeFile "/p/x" (run None [OpenFile "/p/a"; OpenFile "/p/b"] initialState)
    = run None [OpenFile "/p/a"; OpenFile "/p/b"] initialState.
Proof.
  split.
  - apply (closeFile_other_path "/p/a"
             (run None [OpenFile "/p/a"; OpenFile "/p/b"] initialState)).
    discriminate.
  - apply (closeFile_other_path "/p/x"
             (run None [OpenFile "/p/a"; OpenFile "/p/b"] initialState)).
    + discriminate.
    + intros Hin. by repeat (apply elem_of_cons in Hin as [?|Hin]; [done|]);
        apply elem_of_nil in Hin.
Defined.

Lemma step_ignores_maxFilesOpen (m1 m2 : option Z) (i : Intent) (st : FileStoreState) :
  step m1 i st = step m2 i st.
Proof.
  destruct i as [p|p|p]; [|done..].
  unfold step, openFile, handleFileOpen.
  destruct (includes (openedFiles st) p); [done|]. cbn.
  by destruct (_ >=? maxFilesOpen_or_5 m1), (_ >=? maxFilesOpen_or_5 m2).
Qed.

(** The store reached by a sequence of intents is the same for every
    [maxFilesOpen]: the prop has no effect on the tabs or the selection. *)
Theorem run_ignores_maxFilesOpen (m1 m2 : option Z) (intents : list Intent)
    (st : FileStoreState) :
  run m1 intents st = run m2 intents st.
Proof.
  revert st. induction intents as [|i intents IH]; intros st; [done|].
  by rewrite !run_cons, IH, (step_ignores_maxFilesOpen m1 m2).
Qed.

(** ** Expanding folders beside the tabs *)

Lemma toggleExpanded_step (m : option Z) (p : string) (i : Intent) (st : FileStoreState) :
  step m i (toggleExpanded p st) = toggleExpanded p (step m i st).
Proof.
  destruct i as [q|q|q]; unfold step.
  - unfold openFile, handleFileOpen. cbn [openedFiles toggleExpanded].
    destruct (includes (openedFiles st) q); [done|]. cbn [negb].
    by destruct (_ >=? _).
  - unfold closeFile, handleCloseFile. cbn [openedFiles selectedPath toggleExpanded].
    by destruct (selection_is (selectedPath st) q).
  - done.
Qed.

(** Expanding or collapsing a folder commutes with any sequence of tab
    intents: the tab intents never read or write the expanded paths, and
    the toggle never touches the tabs or the selection. *)
Theorem toggleExpanded_run_commute (m : option Z) (p : string) (intents : list Intent)
    (st : FileStoreState) :
  run m intents (toggleExpanded p st) = toggleExpanded p (run m intents st)
  ∧ expandedPaths (run m intents st) = expandedPaths st.
Proof.
  split.
  - revert st. induction intents as [|i intents IH]; intros st; [done|].
    by rewrite !run_cons, toggleExpanded_step, IH.
  - revert st. induction intents as [|i intents IH]; intros st; [done|].
    rewrite run_cons, IH. destruct i as [q|q|q]; unfold step; [| |done].
    + apply openFile_expandedPaths.
    + apply closeFile_expandedPaths.
Qed.

(** Toggles of two paths can be applied in either order. *)
Theorem toggleExpanded_commute (p q : string) (st : FileStoreState) :
  toggleExpanded p (toggleExpanded q st) = toggleExpanded q (toggleExpanded p st).
Proof.
  assert (Hset : expandedPaths (toggleExpanded p (toggleExpanded q st))
                 = expandedPaths (toggleExpanded q (toggleExpanded p st))).
  { rewrite !toggleExpanded_expandedPaths.
    destruct (decide (p = q)) as [->|Hpq]; [done|].
    destruct (bool_decide (q ∈ expandedPaths st)) eqn:Hq,
             (bool_decide (p ∈ expandedPaths st)) eqn:Hp;
      try apply bool_decide_eq_true in Hq; try apply bool_decide_eq_false in Hq;
      try apply bool_decide_eq_true in Hp; try apply bool_decide_eq_false in Hp;
      repeat case_bool_decide; set_solver. }
  unfold toggleExpanded at 1 3.
  rewrite <- !toggleExpanded_expandedPaths, Hset. done.
Qed.

(** ** What a lookup can and cannot return *)

(** Induction over a tree: a property holds of every node if it holds of
    a node whenever it holds of the node's children. *)
Lemma FileExplorer_children_ind (P : FileExplorer → Prop) :
  (∀ node, (∀ cs, children node = Some cs → Forall P cs) → P node) →
  ∀ node, P node.
Proof.
  intros Hstep. fix IH 1. intros [n t cs c l]. apply Hstep.
  cbn [children]. destruct cs as [cs|]; [|done].
  assert (Hall : Forall P cs)
    by (induction cs as [|child cs IHcs]; constructor; [apply IH|exact IHcs]).
  by intros cs' [= <-].
Qed.

Lemma first_result_None {A B} (f : A → option B) (l : list A) :
  Forall (λ x, f x = None) l → first_result f l = None.
Proof. induction 1 as [|x l Hx _ IH]; [done|]. cbn [first_result]. by rewrite Hx. Qed.

Lemma first_result_Some {A B} (f : A → option B) (l : list A) (r : B) :
  first_result f l = Some r → ∃ x, x ∈ l ∧ f x = Some r.
Proof.
  induction l as [|y l IH]; [done|]. cbn [first_result].
  destruct (f y) as [r'|] eqn:Hy.
  - intros [= ->]. exists y. split; [by left|done].
  - intros (x & Hin & Hx)%IH. exists x. split; [by right|done].
Qed.

Lemma replace_unfold (s pat rep : string) :
  JsString.replace s pat rep =
  if String.prefix pat s then rep +:+ JsString.drop (String.length pat) s
  else match s with
       | EmptyString => EmptyString
       | String c s' => String c (JsString.replace s' pat rep)
       end.
Proof. by destruct s. Qed.

(** Stripping a segment leaves a path that does not begin with a slash
    without one. *)
Lemma replace_segment_no_slash (s n : string) :
  String.prefix "/" s = false →
  String.prefix "/" (JsString.replace s ("/" +:+ n) "") = false.
Proof.
  intros Hs. rewrite replace_unfold.
  destruct s as [|c s]; [done|].
  change ("/" +:+ n) with (String "/" n).
  cbn [String.prefix] in Hs |- *.
  destruct (ascii_dec "/" c) as [Heq|Hne]; [by destruct s|].
  cbn [String.prefix]. by destruct (ascii_dec "/" c).
Qed.

(** A path that does not begin with a slash, the empty path among them,
    is not found in any tree. *)
Lemma findFileContent_no_slash (root : FileExplorer) (targetPath : string) :
  String.prefix "/" targetPath = false →
  findFileContent root targetPath = None.
Proof.
  revert targetPath.
  induction root as [node IH] using FileExplorer_children_ind.
  intros targetPath Hslash. rewrite findFileContent_unfold.
  destruct (String.eqb_spec ("/" +:+ name node) targetPath) as [<-|_].
  { assert (String.prefix "/" ("/" +:+ name node) = true)
      by (apply prefix_spec; by exists (name node)).
    congruence. }
  destruct (children node) as [cs|] eqn:Hcs; [|done].
  apply first_result_None.
  eapply Forall_impl; [by apply IH|].
  intros child Hchild. cbn beta. by apply Hchild, replace_segment_no_slash.
Qed.

Lemma nodes_unfold (node : FileExplorer) :
  nodes node =
  node :: match children node with
          | Some cs => cs ≫= nodes
          | None => []
          end.
Proof.
  destruct node as [n t cs c l]. cbn [nodes children]. by f_equal.
Qed.

Lemma nodes_child (node : FileExplorer) (cs : list FileExplorer) (child n : FileExplorer) :
  children node = Some cs → child ∈ cs → n ∈ nodes child → n ∈ nodes node.
Proof.
  intros Hcs Hchild Hn. rewrite nodes_unfold, Hcs. right.
  apply list_elem_of_bind. by exists child.
Qed.

(** A lookup that finds something returns the [content] and [language]
    of a node of the tree. *)
Lemma findFileContent_Some_node
    (root : FileExplorer) (targetPath : string) (found : FileContent) :
  findFileContent root targetPath = Some found →
  ∃ node, node ∈ nodes root
          ∧ found = mkFileContent (content node) (language node).
Proof.
  revert targetPath.
  induction root as [node IH] using FileExplorer_children_ind.
  intros targetPath. rewrite findFileContent_unfold.
  destruct (String.eqb _ _).
  - intros [= <-]. exists node. split; [|done]. rewrite nodes_unfold. by left.
  - destruct (children node) as [cs|] eqn:Hcs; [|done].
    intros (child & Hchild & Hfound)%first_result_Some.
    specialize (IH cs eq_refl). rewrite Forall_forall in IH.
    destruct (IH child Hchild _ Hfound) as (n & Hn & ->).
    exists n. split; [|done]. by eapply nodes_child.
Qed.

(** A selection that does not begin with a slash resolves to nothing, in
    any tree, and the placeholder is shown for it. *)
Theorem selection_without_slash_shows_nothing
    (root : FileExplorer) (p : string) (st : FileStoreState) :
  String.prefix "/" p = false →
  selectedPath st = SelPath p →
  findFileContent root p = None
  ∧ selectedFile root (selectedPath st) = None
  ∧ IDE_viewer root st = None.
Proof.
  intros Hslash Hsel.
  pose proof (findFileContent_no_slash root p Hslash) as Hnone.
  unfold IDE_viewer. rewrite Hsel. cbn [selectedFile].
  rewrite Hnone. by destruct (String.eqb p "").
Qed.

Lemma selection_without_slash_shows_nothing_witness :
  findFileContent scenarioTree "proj/src/a.ts" = None
  ∧ selectedFile scenarioTree (selectedPath (selectFile "proj/src/a.ts" initialState)) = None
  ∧ IDE_viewer scenarioTree (selectFile "proj/src/a.ts" initialState) = None.
Proof.
  by apply (selection_without_slash_shows_nothing scenarioTree "proj/src/a.ts").
Defined.

(** Whatever a lookup returns is the [content] and [language] of a node
    of the tree.  The viewer is given exactly the text and language the
    lookup of the selection returns, when that text is not empty; the
    selection then begins with a slash.  The placeholder is shown when
    nothing is selected, when the selection is not found, and when it is
    found with no [content] or with the empty text. *)
Theorem IDE_viewer_shows_tree_content (root : FileExplorer) (st : FileStoreState) :
  (∀ targetPath found,
     findFileContent root targetPath = Some found →
     ∃ node, node ∈ nodes root
             ∧ found = mkFileContent (content node) (language node))
  ∧ (∀ text lang,
       IDE_viewer root st = Some (text, lang) ↔
       text ≠ ""
       ∧ ∃ p, selectedPath st = SelPath p
              ∧ findFileContent root p = Some (mkFileContent (Some text) lang))
  ∧ (∀ text lang,
       IDE_viewer root st = Some (text, lang) →
       ∃ p node, selectedPath st = SelPath p
                 ∧ String.prefix "/" p = true
                 ∧ findFileContent root p = Some (mkFileContent (content node) (language node))
                 ∧ node ∈ nodes root
                 ∧ content node = Some text
                 ∧ language node = lang)
  ∧ (∀ p found,
       selectedPath st = SelPath p →
       findFileContent root p = Some found →
       fc_content found = None ∨ fc_content found = Some "" →
       IDE_viewer root st = None)
  ∧ (∀ p, selectedPath st = SelPath p → findFileContent root p = None →
          IDE_viewer root st = None)
  ∧ (no_selection (selectedPath st) = true → IDE_viewer root st = None).
Proof.
  assert (Hiff : ∀ text lang,
            IDE_viewer root st = Some (text, lang) ↔
            text ≠ ""
            ∧ ∃ p, selectedPath st = SelPath p
                   ∧ findFileContent root p = Some (mkFileContent (Some text) lang)).
  { intros text lang. unfold IDE_viewer, selectedFile. split.
    - destruct (selectedPath st) as [| |p]; [done..|].
      destruct (String.eqb p ""); [done|].
      destruct (findFileContent root p) as [[[t|] l]|] eqn:Hfound;
        cbn [fc_content fc_language]; [|done..].
      destruct (String.eqb_spec t "") as [|Hne]; [done|].
      intros [= -> ->]. split; [done|]. by exists p.
    - intros (Hne & p & -> & Hfound).
      destruct (String.eqb_spec p "") as [->|_].
      + by rewrite findFileContent_no_slash in Hfound.
      + rewrite Hfound. cbn [fc_content fc_language].
        by destruct (String.eqb_spec text ""). }
  split; [apply findFileContent_Some_node|]. split; [exact Hiff|]. split; [|split; [|split]].
  - intros text lang (Hne & p & Hsel & Hfound)%Hiff.
    destruct (findFileContent_Some_node _ _ _ Hfound) as (node & Hin & [= Hc Hl]).
    exists p, node. rewrite <- Hc, <- Hl. repeat split; try done.
    destruct (String.prefix "/" p) eqn:Hslash; [done|].
    by rewrite (findFileContent_no_slash root p Hslash) in Hfound.
  - intros p found Hsel Hfound Hempty. unfold IDE_viewer, selectedFile. rewrite Hsel.
    destruct (String.eqb p ""); [done|]. rewrite Hfound.
    by destruct Hempty as [->| ->].
  - intros p Hsel Hnone. unfold IDE_viewer, selectedFile. rewrite Hsel, Hnone.
    by destruct (String.eqb p "").
  - unfold IDE_viewer, selectedFile. by destruct (selectedPath st).
Qed.

(** With [b.ts] selected the viewer has its text; with the empty file
    [empty.ts] selected, and with a path that names no file, it shows the
    placeholder. *)
Lemma IDE_viewer_shows_tree_content_witness :
  IDE_viewer scenarioTree (openFile None "/proj/src/b.ts" initialState)
  = Some ("foo
bar
", None)
  ∧ IDE_viewer (dirNode "proj" [fileNode "empty.ts" ""; fileNode "a.ts" "x"])
      (openFile None "/proj/empty.ts" initialState) = None
  ∧ IDE_viewer scenarioTree (selectFile "/no/such/file" initialState) = None.
Proof.
  split; [|split].
  - apply (proj1 (proj2 (IDE_viewer_shows_tree_content scenarioTree
                           (openFile None "/proj/src/b.ts" initialState)))).
    split; [done|]. by exists "/proj/src/b.ts".
  - apply (proj1 (proj2 (proj2 (proj2
             (IDE_viewer_shows_tree_content
                (dirNode "proj" [fileNode "empty.ts" ""; fileNode "a.ts" "x"])
                (openFile None "/proj/empty.ts" initialState)))))
             "/proj/empty.ts" (mkFileContent (Some "") None));
      [done|done|by right].
  - by apply (proj1 (proj2 (proj2 (proj2 (proj2
                (IDE_viewer_shows_tree_content scenarioTree
                   (selectFile "/no/such/file" initialState))))))
                "/no/such/file").
Defined.

(** ** From a row of the tree to the viewer *)

Lemma path_of_app (names more : list string) :
  path_of (names ++ more) = path_of names +:+ path_of more.
Proof.
  induction names as [|n names IH]; [done|].
  cbn [app path_of]. by rewrite IH, !append_assoc.
Qed.

(** The [fullPath] rows build, parent by parent, is the path joined with
    slashes. *)
Lemma fullPath_along_path_of (path : string) (names : list string) :
  fullPath_along path names = path +:+ path_of names.
Proof.
  revert path. induction names as [|n names IH]; intros path; cbn [fullPath_along path_of].
  - by rewrite append_empty_r.
  - by rewrite IH, !append_assoc.
Qed.

(** A click on the row of a file that is not binary, reached from the
    root row through [parents]: the row's [fullPath] is the slash-joined
    path of the names down to the file; the click selects that path and
    has it among the tabs, and the lookup of the selection finds a file,
    so [selectedFile] is not [null]. *)
Theorem FileTree_click_selects_resolvable
    (m : option Z) (root : FileExplorer) (parents : list string) (item : FileExplorer)
    (st : FileStoreState) :
  node_at root (parents ++ [name item]) = Some item →
  type item = file →
  isBinaryFile (name item) = false →
  FileTree_fullPath (fullPath_along "" parents) item = path_of (parents ++ [name item])
  ∧ selectedPath
      (FileTree_onClick m (openedFiles st) (fullPath_along "" parents) item st)
    = SelPath (path_of (parents ++ [name item]))
  ∧ path_of (parents ++ [name item])
    ∈ openedFiles (FileTree_onClick m (openedFiles st) (fullPath_along "" parents) item st)
  ∧ is_Some
      (selectedFile root
         (selectedPath
            (FileTree_onClick m (openedFiles st) (fullPath_along "" parents) item st))).
Proof.
  intros Hnode Hfile Hbin.
  assert (Hpath : FileTree_fullPath (fullPath_along "" parents) item
                  = path_of (parents ++ [name item])).
  { unfold FileTree_fullPath. rewrite fullPath_along_path_of, path_of_app.
    cbn [path_of]. by rewrite append_empty_r. }
  assert (Hclick : FileTree_onClick m (openedFiles st) (fullPath_along "" parents) item st
                   = openFile m (path_of (parents ++ [name item])) st).
  { unfold FileTree_onClick. rewrite Hfile, Hbin. cbn [type_is andb negb].
    fold (FileTree_fullPath (fullPath_along "" parents) item). by rewrite Hpath. }
  rewrite Hclick, openFile_selectedPath. split; [done|]. split; [done|]. split.
  - rewrite openFile_openedFiles.
    destruct (includes (openedFiles st) _) eqn:Hin.
    + by apply includes_true.
    + apply elem_of_app. right. by apply list_elem_of_singleton.
  - cbn [selectedFile].
    destruct (parents ++ [name item]) as [|n names] eqn:Hnames;
      [by destruct parents|].
    cbn [node_at] in Hnode.
    destruct (String.eqb_spec (name root) n) as [<-|]; [|done].
    replace (String.eqb (path_of (name root :: names)) "") with false
      by (symmetry; by apply String.eqb_neq).
    by eapply findFileContent_descend.
Qed.

Lemma FileTree_click_selects_resolvable_witness :
  selectedPath
    (FileTree_onClick (Some 1) [] (fullPath_along "" ["proj"; "src"])
       (fileNode "b.ts" "foo
bar
") initialState)
  = SelPath "/proj/src/b.ts"
  ∧ is_Some
      (selectedFile scenarioTree
         (selectedPath
            (FileTree_onClick (Some 1) [] (fullPath_along "" ["proj"; "src"])
               (fileNode "b.ts" "foo
bar
") initialState))).
Proof.
  destruct (FileTree_click_selects_resolvable (Some 1) scenarioTree ["proj"; "src"]
              (fileNode "b.ts" "foo
bar
") initialState eq_refl eq_refl eq_refl) as (_ & Hsel & _ & Hfound).
  split; [exact Hsel | exact Hfound].
Defined.

(** ** Binary files *)

Lemma lastIndexOf_dot_from_shift (s : string) (i found : Z) :
  JsString.lastIndexOf_dot_from i s found =
  if JsString.lastIndexOf_dot s <? 0 then found else i + JsString.lastIndexOf_dot s.
Proof.
  unfold JsString.lastIndexOf_dot.
  revert i found. induction s as [|c s IH]; intros i found; [done|].
  cbn [JsString.lastIndexOf_dot_from].
  rewrite (IH (i + 1)), (IH (0 + 1)).
  destruct (Z.ltb_spec (JsString.lastIndexOf_dot_from 0 s (-1)) 0) as [Hno|Hyes].
  - destruct (Ascii.eqb c "."); [|done]. cbn. lia.
  - destruct (Z.ltb_spec (0 + 1 + JsString.lastIndexOf_dot_from 0 s (-1)) 0); lia.
Qed.

Lemma lastIndexOf_dot_from_app (s1 s2 : string) (i found : Z) :
  JsString.lastIndexOf_dot_from i (s1 +:+ s2) found =
  JsString.lastIndexOf_dot_from (i + Z.of_nat (String.length s1)) s2
    (JsString.lastIndexOf_dot_from i s1 found).
Proof.
  revert i found. induction s1 as [|c s1 IH]; intros i found.
  - cbn. by rewrite Z.add_0_r.
  - change (String c s1 +:+ s2) with (String c (s1 +:+ s2)).
    cbn [JsString.lastIndexOf_dot_from String.length]. rewrite IH. f_equal. lia.
Qed.

(** The last dot of a name that ends in a part with a dot lies in that
    part. *)
Lemma lastIndexOf_dot_app (stem ext : string) :
  0 ≤ JsString.lastIndexOf_dot ext →
  JsString.lastIndexOf_dot (stem +:+ ext)
  = Z.of_nat (String.length stem) + JsString.lastIndexOf_dot ext.
Proof.
  intros Hdot. unfold JsString.lastIndexOf_dot at 1.
  rewrite lastIndexOf_dot_from_app, lastIndexOf_dot_from_shift.
  destruct (Z.ltb_spec (JsString.lastIndexOf_dot ext) 0); lia.
Qed.

Lemma lower_ascii_dot (c : ascii) :
  Ascii.eqb (JsString.lower_ascii c) "." = Ascii.eqb c ".".
Proof. by destruct c as [[] [] [] [] [] [] [] []]. Qed.

(** Lower-casing moves no dot. *)
Lemma lastIndexOf_dot_toLowerCase (s : string) :
  JsString.lastIndexOf_dot (JsString.toLowerCase s) = JsString.lastIndexOf_dot s.
Proof.
  unfold JsString.lastIndexOf_dot. generalize 0 (-1).
  induction s as [|c s IH]; intros i found; [done|].
  cbn [JsString.toLowerCase JsString.lastIndexOf_dot_from].
  by rewrite lower_ascii_dot, IH.
Qed.

Lemma binaryExtensions_dot (e : string) :
  e ∈ binaryExtensions → JsString.lastIndexOf_dot e = 0.
Proof.
  assert (Hall : Forall (λ e, JsString.lastIndexOf_dot e = 0) binaryExtensions)
    by (repeat constructor).
  rewrite Forall_forall in Hall. apply Hall.
Qed.

Lemma drop_suffix (k : nat) (s : string) : ∃ stem, s = stem +:+ JsString.drop k s.
Proof.
  revert s. induction k as [|k IH]; intros s; [by exists ""|].
  destruct s as [|c s]; [by exists ""|].
  destruct (IH s) as [stem Hstem]. exists (String c stem).
  cbn [JsString.drop]. change (String c s = String c (stem +:+ JsString.drop k s)).
  by rewrite <- Hstem.
Qed.

Lemma slice_at_length (stem ext : string) :
  JsString.slice (stem +:+ ext) (Z.of_nat (String.length stem)) = ext.
Proof.
  unfold JsString.slice.
  destruct (Z.ltb_spec (Z.of_nat (String.length stem)) 0) as [?|_]; [lia|].
  assert (Hlen : String.length (stem +:+ ext)
                 = (String.length stem + String.length ext)%nat).
  { induction stem as [|c stem IH]; [done|].
    change (S (String.length (stem +:+ ext))
            = S (String.length stem + String.length ext)). by rewrite IH. }
  rewrite Hlen, Z.min_l by lia. rewrite Nat2Z.id. apply drop_app_length.
Qed.

(** A name is binary exactly when it ends, case disregarded, in one of the
    listed extensions: the part from the last dot on is compared, and each
    listed extension has its only dot in front. *)
Theorem isBinaryFile_iff_extension (fileName : string) :
  isBinaryFile fileName = true ↔
  ∃ stem ext, fileName = stem +:+ ext ∧ JsString.toLowerCase ext ∈ binaryExtensions.
Proof.
  unfold isBinaryFile. rewrite includes_true. split.
  - intros Hin. unfold JsString.slice in Hin.
    destruct (drop_suffix
                (Z.to_nat
                   (if JsString.lastIndexOf_dot fileName <? 0
                    then Z.max (Z.of_nat (String.length fileName)
                                + JsString.lastIndexOf_dot fileName) 0
                    else Z.min (JsString.lastIndexOf_dot fileName)
                           (Z.of_nat (String.length fileName))))
                fileName) as [stem Hstem].
    by eexists stem, _.
  - intros (stem & ext & -> & Hext).
    pose proof (binaryExtensions_dot _ Hext) as Hdot.
    rewrite lastIndexOf_dot_toLowerCase in Hdot.
    rewrite lastIndexOf_dot_app, Hdot, Z.add_0_r by lia.
    by rewrite slice_at_length.
Qed.

(** ** Statistics of a code block *)

Lemma split_lines_acc_length (cur s : string) :
  Z.of_nat (length (JsString.split_lines_acc cur s)) = 1 + count_line_feeds s.
Proof.
  revert cur. induction s as [|c s IH]; intros cur; [done|].
  cbn [JsString.split_lines_acc count_line_feeds].
  destruct (Ascii.eqb c "010"); [|by rewrite IH].
  cbn [length]. rewrite Nat2Z.inj_succ, IH. lia.
Qed.

(** Pieces, words and runs of space: a piece ends where a run of space
    starts, a word starts where one ends. *)
Lemma split_spaces_go_length (s : string) (in_run : bool) (cur : string) :
  Z.of_nat (length (JsString.split_spaces_go in_run cur s)) + (if in_run then 1 else 0)
  = 1 + word_starts in_run s + (if space_at_end in_run s then 1 else 0).
Proof.
  revert in_run cur. induction s as [|c s IH]; intros in_run cur.
  - cbn. lia.
  - cbn [JsString.split_spaces_go word_starts space_at_end].
    destruct (JsString.is_space c).
    + destruct in_run; cbn [length andb negb].
      * specialize (IH true ""). lia.
      * specialize (IH true ""). rewrite Nat2Z.inj_succ. lia.
    + specialize (IH false (String c cur)). destruct in_run; cbn [andb negb]; lia.
Qed.

Lemma trimEnd_cons (c : ascii) (s : string) :
  JsString.trimEnd (String c s) =
  if String.eqb (JsString.trimEnd s) "" && JsString.is_space c then ""
  else String c (JsString.trimEnd s).
Proof.
  cbn [JsString.trimEnd]. destruct (JsString.trimEnd s); [|done].
  by destruct (JsString.is_space c).
Qed.

Lemma word_starts_trimEnd (s : string) (after_space : bool) :
  word_starts after_space (JsString.trimEnd s) = word_starts after_space s.
Proof.
  revert after_space. induction s as [|c s IH]; intros after_space; [done|].
  rewrite trimEnd_cons. cbn [word_starts].
  rewrite <- (IH (JsString.is_space c)).
  destruct (String.eqb_spec (JsString.trimEnd s) "") as [Hempty|_],
           (JsString.is_space c) eqn:Hc; cbn [andb word_starts]; rewrite ?Hc; try done.
  rewrite Hempty. cbn [word_starts]. by rewrite andb_false_r.
Qed.

Lemma space_at_end_trimEnd (s : string) (after_space : bool) :
  space_at_end after_space (JsString.trimEnd s) =
  if String.eqb (JsString.trimEnd s) "" then after_space else false.
Proof.
  revert after_space. induction s as [|c s IH]; intros after_space; [done|].
  rewrite trimEnd_cons.
  destruct (String.eqb_spec (JsString.trimEnd s) "") as [Hempty|Hfull],
           (JsString.is_space c) eqn:Hc; cbn [andb].
  - done.
  - cbn [space_at_end String.eqb]. by rewrite Hc, Hempty.
  - cbn [space_at_end String.eqb]. rewrite IH.
    by destruct (String.eqb_spec (JsString.trimEnd s) "").
  - cbn [space_at_end String.eqb]. rewrite IH.
    by destruct (String.eqb_spec (JsString.trimEnd s) "").
Qed.

Lemma word_starts_trimStart (s : string) :
  word_starts true (JsString.trimStart s) = word_starts true s.
Proof.
  induction s as [|c s IH]; [done|]. cbn [JsString.trimStart word_starts].
  destruct (JsString.is_space c) eqn:Hc; [by rewrite IH|].
  cbn [word_starts]. by rewrite Hc.
Qed.

Lemma trim_first (s : string) :
  JsString.trim s = "" ∨ ∃ c u, JsString.trim s = String c u ∧ JsString.is_space c = false.
Proof.
  unfold JsString.trim. induction s as [|c s IH]; [by left|].
  cbn [JsString.trimStart]. destruct (JsString.is_space c) eqn:Hc; [exact IH|].
  right. rewrite trimEnd_cons, Hc, andb_false_r. by eexists _, _.
Qed.

Lemma count_line_feeds_bounds (s : string) :
  0 ≤ count_line_feeds s ≤ Z.of_nat (String.length s).
Proof.
  induction s as [|c s IH]; [done|].
  cbn [count_line_feeds String.length]. rewrite Nat2Z.inj_succ.
  destruct (Ascii.eqb c "010"); lia.
Qed.

Lemma word_starts_nonneg (s : string) (after_space : bool) :
  0 ≤ word_starts after_space s.
Proof.
  revert after_space. induction s as [|c s IH]; intros after_space; cbn [word_starts];
    [done|].
  specialize (IH (JsString.is_space c)).
  destruct (after_space && negb (JsString.is_space c)); lia.
Qed.

(** [calculateCodeStats] reports one line more than there are line feeds,
    and as words the maximal runs without space, but never fewer than one:
    a text that is empty or all space counts as one word. *)
Theorem calculateCodeStats_counts (code : string) :
  lines (calculateCodeStats (Some code)) = 1 + count_line_feeds code
  ∧ words (calculateCodeStats (Some code)) = Z.max 1 (word_starts true code)
  ∧ 1 ≤ lines (calculateCodeStats (Some code)) ≤ chars (calculateCodeStats (Some code)) + 1.
Proof.
  assert (Hlines : lines (calculateCodeStats (Some code)) = 1 + count_line_feeds code)
    by apply split_lines_acc_length.
  split; [exact Hlines|]. split.
  - cbn [calculateCodeStats words]. unfold JsString.split_spaces.
    pose proof (split_spaces_go_length (JsString.trim code) false "") as Hlen.
    assert (Hws : word_starts true code = word_starts true (JsString.trim code)).
    { unfold JsString.trim. by rewrite word_starts_trimEnd, word_starts_trimStart. }
    rewrite Hws.
    assert (Hend : space_at_end false (JsString.trim code) = false).
    { unfold JsString.trim. rewrite space_at_end_trimEnd. by destruct (String.eqb _ _). }
    rewrite Hend in Hlen.
    destruct (trim_first code) as [Hempty|(c & u & Htrim & Hc)].
    + rewrite Hempty in *. cbn in *. lia.
    + rewrite Htrim in *. cbn [word_starts] in *. rewrite Hc in *. cbn [andb negb] in *.
      pose proof (word_starts_nonneg u false). lia.
  - rewrite Hlines. cbn [calculateCodeStats chars].
    pose proof (count_line_feeds_bounds code). lia.
Qed.

(** ** Rendering and lookups *)

Lemma first_result_is_Some {A B} (f : A → option B) (l : list A) :
  is_Some (first_result f l) ↔ ∃ x, x ∈ l ∧ is_Some (f x).
Proof.
  split.
  - intros [r (x & Hin & Hx)%first_result_Some]. exists x. split; [done|by exists r].
  - intros (x & Hin & Hx). by eapply first_result_elem.
Qed.

(** Rendering an item reorders its children but does not change which
    paths are found in it: a lookup in the rendered item finds something
    exactly when the lookup in the item as given does. *)
Theorem FileTree_render_keeps_found
    (localeCompare : string → string → Z) (item : FileExplorer) (targetPath : string) :
  is_Some (findFileContent (FileTree_render localeCompare item) targetPath)
  ↔ is_Some (findFileContent item targetPath).
Proof.
  unfold FileTree_render. destruct (type_is (type item) directory); [|done].
  rewrite !findFileContent_unfold. cbn [name children content language].
  destruct (String.eqb _ _); [done|].
  destruct (children item) as [cs|]; [|done]. cbn [fmap option_fmap option_map].
  rewrite !first_result_is_Some.
  split; intros (x & Hin & Hx); exists x; (split; [|done]).
  - by rewrite sort_Permutation in Hin.
  - by rewrite sort_Permutation.
Qed.

Section ChildOrderStable.

Variable localeCompare : string → string → Z.
Hypothesis localeCompare_swap : ∀ a b, 0 < localeCompare a b → localeCompare b a < 0.
Hypothesis localeCompare_trans :
  ∀ a b c, localeCompare a b ≤ 0 → localeCompare b c ≤ 0 → localeCompare a c ≤ 0.

(** The child rows are a stable arrangement: the children that compare
    equal to a given node (same kind, names equal in the collation) are in
    the rows in the order the [children] array had them in. *)
Theorem FileTree_rows_stable (item : FileExplorer) (rows : list FileExplorer)
    (x : FileExplorer) :
  FileTree_rows localeCompare item = Some rows →
  ∃ cs, children item = Some cs
        ∧ filter (λ y, compareChildren localeCompare x y = 0) rows
          = filter (λ y, compareChildren localeCompare x y = 0) cs.
Proof using localeCompare_swap localeCompare_trans.
  unfold FileTree_rows. destruct (type_is (type item) directory); [|done].
  destruct (children item) as [cs|]; [|done]. cbn. intros [= <-].
  exists cs. split; [done|].
  apply sort_stable; [apply compareChildren_swap | apply compareChildren_trans]; done.
Qed.

End ChildOrderStable.

Lemma caselessCompare_swap (a b : string) :
  0 < caselessCompare a b → caselessCompare b a < 0.
Proof. apply codeUnitCompare_swap. Qed.

Lemma caselessCompare_trans (a b c : string) :
  caselessCompare a b ≤ 0 → caselessCompare b c ≤ 0 → caselessCompare a c ≤ 0.
Proof. apply codeUnitCompare_trans. Qed.

(** Under a collation that disregards case, [B.ts] and [b.ts] compare
    equal and stay in the order they were given in. *)
Lemma FileTree_rows_stable_witness :
  FileTree_rows caselessCompare
    (dirNode "proj" [fileNode "B.ts" "1"; fileNode "a.ts" "2"; fileNode "b.ts" "3"])
  = Some [fileNode "a.ts" "2"; fileNode "B.ts" "1"; fileNode "b.ts" "3"]
  ∧ ∃ cs, children (dirNode "proj" [fileNode "B.ts" "1"; fileNode "a.ts" "2"; fileNode "b.ts" "3"])
          = Some cs
          ∧ filter (λ y, compareChildren caselessCompare (fileNode "b.ts" "") y = 0)
              [fileNode "a.ts" "2"; fileNode "B.ts" "1"; fileNode "b.ts" "3"]
            = filter (λ y, compareChildren caselessCompare (fileNode "b.ts" "") y = 0) cs.
Proof.
  split; [reflexivity|].
  exact (FileTree_rows_stable caselessCompare caselessCompare_swap caselessCompare_trans
           (dirNode "proj" [fileNode "B.ts" "1"; fileNode "a.ts" "2"; fileNode "b.ts" "3"])
           _ (fileNode "b.ts" "") eq_refl).
Defined.
